(** * file_scanner.py: the cataloguing pass and the term search

    A shallow embedding of [src/file_scanner.py].  The file is organised as
    the script is:

    - [Str]: the methods of Python's [str] the script calls ([lower],
      [upper], [in], [count], [rfind], slicing);
    - [OsPath]: [os.path.join], [os.path.splitext], [os.path.basename];
    - the file system the script looks at ([os.walk], [os.path.isdir],
      [os.path.getsize], [open(..).read()]);
    - the MySQL connection: the tables [files_info] and the search tables,
      a transaction ([commit], [rollback]) and the statements the script
      executes;
    - the functions of the script, in a state-and-exception monad over the
      connection: the scan pass and the search first, then
      [setup_database], the monitoring loop, the search with what it
      prints, and the menu;
    - the properties.

    Text is modelled as [string] (a sequence of 8-bit characters); [lower]
    and [upper] change the ASCII letters only, as Python does on ASCII
    text.  Logging, the timing code and the [USE] statements have no
    effect on any value here and are left out; what a search prints is
    given by [search_for_term_printing], which leaves the state
    [search_for_term] leaves.  The server compares [full_path] as text, character
    by character, both for the [UNIQUE] key and for [WHERE full_path = %s];
    occurrence counts are taken to fit the [INT] column. *)

From Stdlib Require Import Ascii String DecimalString.
From stdpp Require Import base list strings gmap.

(** ** Python's [str] *)

Module Str.

(** [c.lower()] and [c.upper()] on one character: the 26 ASCII letters. *)
Definition lower_char (c : ascii) : ascii :=
  let n := nat_of_ascii c in
  if (65 <=? n)%nat && (n <=? 90)%nat then ascii_of_nat (n + 32) else c.

Definition upper_char (c : ascii) : ascii :=
  let n := nat_of_ascii c in
  if (97 <=? n)%nat && (n <=? 122)%nat then ascii_of_nat (n - 32) else c.

(** [s.lower()], [s.upper()], for ASCII text.  On other text Python
    changes more letters and may change the length ([Unicode], below, has
    the case that matters to the search). *)
Fixpoint lower (s : string) : string :=
  match s with
  | EmptyString => EmptyString
  | String c s' => String (lower_char c) (lower s')
  end.

Fixpoint upper (s : string) : string :=
  match s with
  | EmptyString => EmptyString
  | String c s' => String (upper_char c) (upper s')
  end.

(** [s.startswith(sub)] *)
Fixpoint startswith (s sub : string) : bool :=
  match sub, s with
  | EmptyString, _ => true
  | String _ _, EmptyString => false
  | String a sub', String b s' => Ascii.eqb a b && startswith s' sub'
  end.

(** [sub in s] *)
Fixpoint contains (sub s : string) : bool :=
  startswith s sub ||
  match s with
  | EmptyString => false
  | String _ s' => contains sub s'
  end.

(** The scan of [s.count(sub)] for a non-empty [sub]: left to right; a match
    at the current position is counted and the next [len(sub) - 1]
    characters are stepped over ([skip]), so matches never overlap. *)
Fixpoint count_scan (sub s : string) (skip : nat) : nat :=
  match s with
  | EmptyString => 0
  | String _ s' =>
      match skip with
      | S k => count_scan sub s' k
      | O =>
          if startswith s sub
          then S (count_scan sub s' (String.length sub - 1))
          else count_scan sub s' 0
      end
  end.

(** [s.count(sub)]; for the empty [sub] Python answers [len(s) + 1]. *)
Definition count (s sub : string) : nat :=
  match sub with
  | EmptyString => String.length s + 1
  | String _ _ => count_scan sub s 0
  end.

(** [s.rfind(c)] for a one-character [c]: the highest index, or [-1]. *)
Fixpoint rfind_from (c : ascii) (s : string) (i last : Z) : Z :=
  match s with
  | EmptyString => last
  | String a s' => rfind_from c s' (i + 1) (if Ascii.eqb a c then i else last)
  end.

Definition rfind (s : string) (c : ascii) : Z := rfind_from c s 0 (-1).

(** [s[i:]] and [s[:i]] for [0 <= i]. *)
Fixpoint slice_from (s : string) (i : nat) {struct i} : string :=
  match i, s with
  | O, _ => s
  | S _, EmptyString => EmptyString
  | S i', String _ s' => slice_from s' i'
  end.

Fixpoint slice_to (s : string) (i : nat) {struct i} : string :=
  match i, s with
  | O, _ => EmptyString
  | S _, EmptyString => EmptyString
  | S i', String a s' => String a (slice_to s' i')
  end.

(** [s[i:i+1]]: the character at [i] as a string, empty out of range. *)
Definition char_at (s : string) (i : nat) : string :=
  slice_to (slice_from s i) 1.

(** [s.endswith(c)] for a one-character [c]. *)
Fixpoint endswith_char (s : string) (c : ascii) : bool :=
  match s with
  | EmptyString => false
  | String a EmptyString => Ascii.eqb a c
  | String _ s' => endswith_char s' c
  end.

End Str.


(** ** [os.path]

    The POSIX flavour ([posixpath]): the separator is ["/"].  [splitext] is
    the shared [genericpath._splitext], which takes the separators as
    arguments. *)

Module OsPath.

Definition sep : ascii := "/"%char.
Definition extsep : ascii := "."%char.

(** [os.path.join(a, b)] *)
Definition join (a b : string) : string :=
  if Str.startswith b (String sep EmptyString) then b
  else if String.eqb a "" || Str.endswith_char a sep then a +:+ b
  else a +:+ String sep b.

(** The [while filenameIndex < dotIndex] loop of [_splitext]: it skips the
    leading dots of the file name and answers [true] when it reaches a
    character that is not a dot (the [return p[:dotIndex], p[dotIndex:]]),
    [false] when it runs to [dotIndex].  [remaining] is
    [dotIndex - filenameIndex]. *)
Fixpoint skip_leading_dots (p : string) (ext_sep : ascii)
    (filenameIndex remaining : nat) : bool :=
  match remaining with
  | O => false
  | S remaining' =>
      if negb (String.eqb (Str.char_at p filenameIndex) (String ext_sep EmptyString))
      then true
      else skip_leading_dots p ext_sep (S filenameIndex) remaining'
  end.

(** [genericpath._splitext(p, sep, altsep, extsep)] *)
Definition genericpath_splitext (p : string) (path_sep : ascii)
    (altsep : option ascii) (ext_sep : ascii) : string * string :=
  let sepIndex :=
    match altsep with
    | Some alt => Z.max (Str.rfind p path_sep) (Str.rfind p alt)
    | None => Str.rfind p path_sep
    end in
  let dotIndex := Str.rfind p ext_sep in
  if (sepIndex <? dotIndex)%Z
     && skip_leading_dots p ext_sep (Z.to_nat (sepIndex + 1))
          (Z.to_nat (dotIndex - (sepIndex + 1)))
  then (Str.slice_to p (Z.to_nat dotIndex), Str.slice_from p (Z.to_nat dotIndex))
  else (p, EmptyString).

(** [os.path.splitext(p)] *)
Definition splitext (p : string) : string * string :=
  genericpath_splitext p sep None extsep.

(** [ntpath.splitext(p)], for comparison: backslash, with ["/"] as the
    alternative separator. *)
Definition nt_splitext (p : string) : string * string :=
  genericpath_splitext p "\"%char (Some "/"%char) extsep.

(** [os.path.basename(p)] *)
Definition basename (p : string) : string :=
  Str.slice_from p (Z.to_nat (Str.rfind p sep + 1)).

End OsPath.

(** ** Exceptions and results *)

(** The exceptions the script can meet.  All three are subclasses of
    [Exception]; only [MySQLError] is a [mysql.connector.Error]. *)
Inductive exception : Type :=
| OSError (what : string)
| UnicodeDecodeError
| MySQLError (what : string).

Inductive result (A : Type) : Type :=
| Ok (a : A)
| Raise (e : exception).

Arguments Ok {A} a.
Arguments Raise {A} e.

Definition is_mysql_error (e : exception) : bool :=
  match e with
  | MySQLError _ => true
  | _ => false
  end.

(** ** The file system

    What the script sees of the disk during one pass: a tree of entries
    below a mount point.  A file carries what [os.path.getsize] answers
    ([None]: the call raises [OSError], as for a dangling link) and what
    reading it as UTF-8 text gives.  Paths are compared as text. *)

Inductive read_outcome : Type :=
| Text (s : string)
| Denied
| Undecodable.

#[warnings="-register-all"]
Inductive entry : Type :=
| File (name : string) (size : option nat) (data : read_outcome)
| Dir (name : string) (listing : list entry).

Record filesystem : Type := { mount : string; tree : list entry }.

Definition entry_name (e : entry) : string :=
  match e with
  | File name _ _ => name
  | Dir name _ => name
  end.

Definition is_dir_entry (e : entry) : bool :=
  match e with
  | Dir _ _ => true
  | File _ _ _ => false
  end.

(** The [dirs] and [nondirs] lists [os.walk] builds from one [scandir]. *)
Definition dirnames (l : list entry) : list string :=
  map entry_name (List.filter is_dir_entry l).

Definition filenames (l : list entry) : list string :=
  map entry_name (List.filter (fun e => negb (is_dir_entry e)) l).

(** [os.walk(top)], top-down: the triple of [top], then the walk of each
    sub-directory in listing order. *)
Fixpoint walk_entry (top : string) (e : entry)
    : list (string * list string * list string) :=
  match e with
  | File _ _ _ => []
  | Dir name l =>
      let new_path := OsPath.join top name in
      (new_path, dirnames l, filenames l) :: flat_map (walk_entry new_path) l
  end.

Definition walk_listing (top : string) (l : list entry)
    : list (string * list string * list string) :=
  (top, dirnames l, filenames l) :: flat_map (walk_entry top) l.

(** Path resolution: the entry whose path, as [os.walk] spells it, is [p]. *)
Fixpoint find_entry (top : string) (e : entry) (p : string) : option entry :=
  let path := OsPath.join top (entry_name e) in
  if String.eqb path p then Some e
  else
    match e with
    | File _ _ _ => None
    | Dir _ l =>
        (fix find_in (l : list entry) : option entry :=
           match l with
           | [] => None
           | e' :: l' =>
               match find_entry path e' p with
               | Some found => Some found
               | None => find_in l'
               end
           end) l
    end.

Fixpoint find_in_listing (top : string) (l : list entry) (p : string)
    : option entry :=
  match l with
  | [] => None
  | e :: l' =>
      match find_entry top e p with
      | Some found => Some found
      | None => find_in_listing top l' p
      end
  end.

Definition stat (fs : filesystem) (p : string) : option entry :=
  if String.eqb p (mount fs) then Some (Dir (mount fs) (tree fs))
  else find_in_listing (mount fs) (tree fs) p.

(** [os.path.isdir(p)]: never raises, [False] for what is not there. *)
Definition isdir (fs : filesystem) (p : string) : bool :=
  match stat fs p with
  | Some (Dir _ _) => true
  | _ => false
  end.

(** [os.path.getsize(p)].  The size of a directory inode is not modelled
    (the script asks for the size of listed files only). *)
Definition getsize (fs : filesystem) (p : string) : result nat :=
  match stat fs p with
  | Some (File _ (Some n) _) => Ok n
  | Some (File _ None _) => Raise (OSError "stat failed")
  | Some (Dir _ _) => Ok 0
  | None => Raise (OSError "No such file or directory")
  end.

(** [open(p, 'r', encoding='utf-8')] followed by [read()], for the
    entries whose read ends, with the text or with an exception (a pipe
    nobody writes to, on which the read would wait, is not among them). *)
Definition open_read (fs : filesystem) (p : string) : result string :=
  match stat fs p with
  | Some (File _ _ (Text s)) => Ok s
  | Some (File _ _ Denied) => Raise (OSError "Permission denied")
  | Some (File _ _ Undecodable) => Raise UnicodeDecodeError
  | Some (Dir _ _) => Raise (OSError "Is a directory")
  | None => Raise (OSError "No such file or directory")
  end.

(** [os.walk(directory)]: nothing at all when [directory] cannot be listed
    (the [scandir] error is swallowed, [onerror] being [None]). *)
Definition os_walk (fs : filesystem) (directory : string)
    : list (string * list string * list string) :=
  match stat fs directory with
  | Some (Dir _ l) => walk_listing directory l
  | _ => []
  end.

(** ** The database

    [files_info] and the search tables hold their rows in insertion order
    (the [AUTO_INCREMENT] id is the position).  [full_path] is [UNIQUE].
    The connection is opened with [autocommit=False] on InnoDB tables: the
    statements of the session work on [session] and reach [committed] at
    [commit]; [rollback] drops them. *)

Record FileRecord : Type := {
  file_name : string;
  full_path : string;
  file_extension : string;
  file_size : nat;
  file_type : string;
  content : string
}.

Record SearchResultRow : Type := {
  row_file_name : string;
  row_full_path : string;
  occurrences : nat;
  row_file_type : string
}.

Record store : Type := {
  files_info : list FileRecord;
  search_tables : gmap string (list SearchResultRow)
}.

Record connection : Type := { committed : store; session : store }.

(** The computations of the script: they read and change the connection
    and either return or raise. *)
Definition M (A : Type) : Type := connection -> result A * connection.

Definition ret {A : Type} (a : A) : M A := fun c => (Ok a, c).

Definition raise {A : Type} (e : exception) : M A := fun c => (Raise e, c).

Definition bind {A B : Type} (m : M A) (k : A -> M B) : M B :=
  fun c =>
    match m c with
    | (Ok a, c') => k a c'
    | (Raise e, c') => (Raise e, c')
    end.

Notation "'let*' x := m 'in' k" := (bind m (fun x => k))
  (at level 10, x name, m at level 100, k at level 200).
Notation "m ;;; k" := (bind m (fun _ => k))
  (at level 100, k at level 200, right associativity).

(** A value or exception computed without the connection. *)
Definition lift {A : Type} (r : result A) : M A := fun c => (r, c).

(** [try: body  except mysql.connector.Error as err: handler] *)
Definition try_except_mysql {A : Type} (body : M A) (handler : exception -> M A)
    : M A :=
  fun c =>
    match body c with
    | (Ok a, c') => (Ok a, c')
    | (Raise e, c') => if is_mysql_error e then handler e c' else (Raise e, c')
    end.

(** [for x in l: body] *)
Fixpoint for_each {A : Type} (l : list A) (body : A -> M unit) : M unit :=
  match l with
  | [] => ret tt
  | x :: l' => body x ;;; for_each l' body
  end.

(** [connection.commit()] and [connection.rollback()] *)
Definition commit : M unit :=
  fun c => (Ok tt, {| committed := session c; session := session c |}).

Definition rollback : M unit :=
  fun c => (Ok tt, {| committed := committed c; session := committed c |}).

(** A data-definition statement ([CREATE TABLE], [TRUNCATE TABLE]) commits
    the open transaction and takes effect at once. *)
Definition ddl (change : store -> store) : M unit :=
  fun c => let s := change (session c) in
           (Ok tt, {| committed := s; session := s |}).

(** [SELECT COUNT( * ) FROM files_info WHERE full_path = %s] *)
Definition select_count_by_path (file_path : string) : M nat :=
  fun c =>
    (Ok (length (List.filter (fun r => String.eqb (full_path r) file_path)
                             (files_info (session c)))), c).

(** [SELECT file_name, full_path, file_type, content FROM files_info] *)
Definition file_tuple (r : FileRecord) : string * string * string * string :=
  (file_name r, full_path r, file_type r, content r).

Definition select_files : M (list (string * string * string * string)) :=
  fun c => (Ok (map file_tuple (files_info (session c))), c).

Definition append_file (r : FileRecord) (s : store) : store :=
  {| files_info := files_info s ++ [r]; search_tables := search_tables s |}.

Definition append_row (table_name : string) (rows : list SearchResultRow)
    (row : SearchResultRow) (s : store) : store :=
  {| files_info := files_info s;
     search_tables := <[table_name := rows ++ [row]]> (search_tables s) |}.

(** [CREATE TABLE IF NOT EXISTS table_name (...)], for a [table_name]
    that is a plain SQL identifier: the script pastes the name into the
    statement, and the server takes such a name as the name of one table. *)
Definition create_table_if_not_exists (table_name : string) : M unit :=
  ddl (fun s =>
    if String.eqb table_name "files_info" then s
    else match search_tables s !! table_name with
         | Some _ => s
         | None => {| files_info := files_info s;
                      search_tables := <[table_name := []]> (search_tables s) |}
         end).

(** [TRUNCATE TABLE table_name] *)
Definition truncate_table (table_name : string) : M unit :=
  fun c =>
    if String.eqb table_name "files_info"
    then ddl (fun s => {| files_info := [];
                          search_tables := search_tables s |}) c
    else match search_tables (session c) !! table_name with
         | Some _ =>
             ddl (fun s => {| files_info := files_info s;
                              search_tables :=
                                <[table_name := []]> (search_tables s) |}) c
         | None => (Raise (MySQLError "Table does not exist"), c)
         end.

(** [INSERT INTO table_name (file_name, full_path, occurrences, file_type)
    VALUES (...)]: [files_info] has no column [occurrences]. *)
Definition insert_row (table_name : string) (row : SearchResultRow) : M unit :=
  fun c =>
    if String.eqb table_name "files_info"
    then (Raise (MySQLError "Unknown column"), c)
    else match search_tables (session c) !! table_name with
         | Some rows =>
             (Ok tt, {| committed := committed c;
                        session := append_row table_name rows row (session c) |})
         | None => (Raise (MySQLError "Table does not exist"), c)
         end.

(** ** The script *)

Section FileScanner.

(** The server's verdict on a row of [files_info] beyond the [UNIQUE] key:
    [true] when it refuses the row (in strict SQL mode, a [file_name] or
    [full_path] longer than [VARCHAR(255)], a text the column's character
    set cannot hold). *)
Variable server_rejects : FileRecord -> bool.

(** The file system during the call. *)
Variable fs : filesystem.

(** [INSERT INTO files_info (file_name, full_path, file_extension,
    file_size, file_type, content) VALUES (...)] *)
Definition insert_file (r : FileRecord) : M unit :=
  fun c =>
    if existsb (fun r' => String.eqb (full_path r') (full_path r))
               (files_info (session c))
    then (Raise (MySQLError "Duplicate entry"), c)
    else if server_rejects r then (Raise (MySQLError "Data error"), c)
    else (Ok tt, {| committed := committed c;
                    session := append_file r (session c) |}).

Definition get_file_type (file_path : string) : string :=
  if isdir fs file_path then "Directory"
  else
    let file_extension := snd (OsPath.splitext file_path) in
    if negb (String.eqb file_extension "")
    then Str.upper (Str.slice_from file_extension 1)
    else "Unknown".

(** The [try] body may raise; [except Exception] catches whatever it
    raises. *)
Definition get_file_content (file_path : string) : result string :=
  match (if isdir fs file_path then Ok "" else open_read fs file_path) with
  | Ok text => Ok text
  | Raise _ => Ok "Unreadable"
  end.

Definition file_exists (file_path : string) : M bool :=
  let* n := select_count_by_path file_path in
  ret (0 <? n)%nat.

(** The body of [for file in files]. *)
Definition insert_file_info_file (root file : string) : M unit :=
  let file_path := OsPath.join root file in
  let* known := file_exists file_path in
  if known then ret tt
  else
    let file_name := OsPath.basename file in
    let file_extension := snd (OsPath.splitext file) in
    let* file_size := lift (getsize fs file_path) in
    let file_type := get_file_type file_path in
    let* content := lift (get_file_content file_path) in
    insert_file {| file_name := file_name; full_path := file_path;
                   file_extension := file_extension; file_size := file_size;
                   file_type := file_type; content := content |}.

(** The two nested [for] loops over [os.walk(directory)]. *)
Definition insert_file_info_walk (directory : string) : M unit :=
  for_each (os_walk fs directory)
    (fun '(root, _, files) => for_each files (insert_file_info_file root)).

Definition insert_file_info (directory : string) : M unit :=
  try_except_mysql
    (insert_file_info_walk directory ;;; commit)
    (fun err => rollback).

(** [create_search_table]: a failure of the statement is logged, not
    raised. *)
Definition create_search_table (table_name : string) : M unit :=
  try_except_mysql (create_table_if_not_exists table_name) (fun err => ret tt).

(** The body of [for file in files] in [search_for_term]. *)
Definition search_for_term_file (search_term table_name : string)
    (file : string * string * string * string) : M unit :=
  let '(file_name, full_path, file_type, content) := file in
  let occurrences := Str.count (Str.lower content) (Str.lower search_term) in
  if Str.contains (Str.lower search_term) (Str.lower file_name)
  then insert_row table_name
         {| row_file_name := file_name; row_full_path := full_path;
            occurrences := if (occurrences =? 0)%nat then 0 else occurrences;
            row_file_type := file_type |}
  else if (0 <? occurrences)%nat
  then insert_row table_name
         {| row_file_name := file_name; row_full_path := full_path;
            occurrences := occurrences; row_file_type := file_type |}
  else ret tt.

(** [search_for_term]; the rows it prints at the end are the rows of the
    table, read back as they are. *)
Definition search_for_term (search_term table_name : string) : M unit :=
  create_search_table table_name ;;;
  try_except_mysql
    (truncate_table table_name ;;;
     let* files := select_files in
     for_each files (search_for_term_file search_term table_name) ;;;
     commit)
    (fun err => ret tt).

(** The rows of a search table as the session sees them (what
    [SELECT * FROM table_name] returns). *)
Definition rows_of (table_name : string) (c : connection)
    : list SearchResultRow :=
  default [] (search_tables (session c) !! table_name).

(** The state a call leaves behind. *)
Definition state_after {A : Type} (m : M A) (c : connection) : connection :=
  snd (m c).

End FileScanner.

(** ** Sample data *)

(** A server that accepts every row. *)
Definition accepts_all (r : FileRecord) : bool := false.

(** The database as [setup_database] leaves a new server: an empty
    [files_info] and an empty [search_results_user], committed. *)
Definition new_store : store :=
  {| files_info := []; search_tables := {[ "search_results_user" := [] ]} |}.

Definition new_connection : connection :=
  {| committed := new_store; session := new_store |}.

Definition sample_fs : filesystem :=
  {| mount := "/srv";
     tree := [ File "report.txt" (Some 17) (Text "Hello hello world");
               Dir "docs" [ File "hello.TXT" (Some 11) (Text "hello there");
                            File "blob.bin" (Some 4) Undecodable;
                            Dir "old" [] ];
               File "notes" (Some 0) (Text "") ] |}.

(** ** Notions used in the statements *)

(** The row of a search table for a record [r] with [n] occurrences. *)
Definition result_row (r : FileRecord) (n : nat) : SearchResultRow :=
  {| row_file_name := file_name r; row_full_path := full_path r;
     occurrences := n; row_file_type := file_type r |}.

(** What one search pass writes for one record of the catalog. *)
Definition search_row (search_term : string) (r : FileRecord)
    : option SearchResultRow :=
  let n := Str.count (Str.lower (content r)) (Str.lower search_term) in
  if Str.contains (Str.lower search_term) (Str.lower (file_name r))
     || (0 <? n)%nat
  then Some (result_row r n)
  else None.

(** No transaction is open: the session has nothing uncommitted. *)
Definition clean (c : connection) : Prop := session c = committed c.

(** The paths of the catalog as the session sees it. *)
Definition catalog_paths (c : connection) : list string :=
  full_path <$> files_info (session c).

(** [c'] is [c] with rows appended to the session's [files_info], all of
    them satisfying [P], none for a path [c] has, no two for one path;
    nothing else differs. *)
Definition extends_by (P : FileRecord -> Prop) (c c' : connection) : Prop :=
  committed c' = committed c /\
  search_tables (session c') = search_tables (session c) /\
  exists added : list FileRecord,
    files_info (session c') = files_info (session c) ++ added /\
    Forall P added /\
    Forall (fun r => full_path r ∉ catalog_paths c) added /\
    NoDup (full_path <$> added).

(** The record [insert_file_info] builds for the file [file] listed in
    [root]. *)
Definition record_of (fs : filesystem) (root file : string) (r : FileRecord)
    : Prop :=
  full_path r = OsPath.join root file /\
  file_name r = OsPath.basename file /\
  file_extension r = snd (OsPath.splitext file) /\
  getsize fs (full_path r) = Ok (file_size r) /\
  file_type r = get_file_type fs (full_path r) /\
  get_file_content fs (full_path r) = Ok (content r).

(** [r] is the record of a non-directory entry that [os.walk(directory)]
    lists. *)
Definition staged_from_walk (fs : filesystem) (directory : string)
    (r : FileRecord) : Prop :=
  exists root dirs files file,
    (root, dirs, files) ∈ os_walk fs directory /\
    file ∈ files /\
    record_of fs root file r.

(** The catalog after one pass over [sample_fs] on a new database. *)
Definition sample_catalog : connection :=
  state_after (insert_file_info accepts_all sample_fs "/srv") new_connection.

Definition hello_record : FileRecord :=
  {| file_name := "hello.TXT"; full_path := "/srv/docs/hello.TXT";
     file_extension := ".TXT"; file_size := 11; file_type := "TXT";
     content := "hello there" |}.

Definition blob_record : FileRecord :=
  {| file_name := "blob.bin"; full_path := "/srv/docs/blob.bin";
     file_extension := ".bin"; file_size := 4; file_type := "BIN";
     content := "Unreadable" |}.

Definition report_record : FileRecord :=
  {| file_name := "report.txt"; full_path := "/srv/report.txt";
     file_extension := ".txt"; file_size := 17; file_type := "TXT";
     content := "Hello hello world" |}.

(** A server that refuses the row of the file [blob.bin]. *)
Definition rejects_blob (r : FileRecord) : bool :=
  String.eqb (file_name r) "blob.bin".


(** ** The rest of the script *)

(** [setup_database].  The server of the model always has the database and
    a [files_info] table, empty at first, so [CREATE DATABASE IF NOT EXISTS]
    and [CREATE TABLE IF NOT EXISTS files_info] only end the open
    transaction, as every data-definition statement does. *)
Definition setup_database : M unit :=
  try_except_mysql
    (ddl (fun s => s) ;;;
     create_table_if_not_exists "files_info" ;;;
     create_table_if_not_exists "search_results_user")
    (fun err => ret tt).

(** [monitor_directory]: the passes the [while True] loop makes before the
    [KeyboardInterrupt], which is taken to arrive during a [sleep].
    [snapshots] is the file system as each pass in turn finds it.  An
    exception out of a pass leaves the loop, as in the script. *)
Definition monitor_directory (server_rejects : FileRecord -> bool)
    (directory : string) (snapshots : list filesystem) : M unit :=
  for_each snapshots
    (fun fs => insert_file_info server_rejects fs directory).

(** The values of a fetched row. *)
Inductive value : Type :=
| VInt (n : nat)
| VStr (s : string).

(** [str(v)], the way an f-string renders a value. *)
Definition str (v : value) : string :=
  match v with
  | VInt n => NilZero.string_of_uint (Nat.to_uint n)
  | VStr s => s
  end.

(** The rows of a table with their [id] column, counted from 1. *)
Fixpoint with_ids {A : Type} (id : nat) (rows : list A) (columns : A -> list value)
    : list (list value) :=
  match rows with
  | [] => []
  | row :: rows' => (VInt id :: columns row) :: with_ids (S id) rows' columns
  end.

(** [SELECT * FROM table_name] *)
Definition select_all (table_name : string) : M (list (list value)) :=
  fun c =>
    if String.eqb table_name "files_info"
    then (Ok (with_ids 1 (files_info (session c))
                (fun r => [VStr (file_name r); VStr (full_path r);
                           VStr (file_extension r); VInt (file_size r);
                           VStr (file_type r); VStr (content r)])), c)
    else match search_tables (session c) !! table_name with
         | Some rows =>
             (Ok (with_ids 1 rows
                    (fun row => [VStr (row_file_name row);
                                 VStr (row_full_path row);
                                 VInt (occurrences row);
                                 VStr (row_file_type row)])), c)
         | None => (Raise (MySQLError "Table does not exist"), c)
         end.

(** [result[i]] *)
Definition column (result : list value) (i : nat) : value :=
  nth i result (VStr "").

Definition newline : string := String (ascii_of_nat 10) EmptyString.

(** What the [if results: ... else: ...] at the end of [search_for_term]
    prints, one string a [print] call. *)
Definition print_results (table_name : string) (results : list (list value))
    : list string :=
  match results with
  | [] => [newline +:+ "No matches found for the search term."]
  | _ :: _ =>
      (newline +:+ "Search results in table " +:+ table_name +:+ ":")
      :: map (fun result =>
                "File Name: " +:+ str (column result 1)
                +:+ ", Full Path: " +:+ str (column result 2)
                +:+ ", Occurrences: " +:+ str (column result 3)
                +:+ ", File Type: " +:+ str (column result 4))
             results
  end.

(** [search_for_term] with what it prints: the statements of
    [search_for_term], then the read-back and the [print] calls.  Nothing is
    printed when a statement fails. *)
Definition search_for_term_printing (search_term table_name : string)
    : M (list string) :=
  create_search_table table_name ;;;
  try_except_mysql
    (truncate_table table_name ;;;
     let* files := select_files in
     for_each files (search_for_term_file search_term table_name) ;;;
     commit ;;;
     let* results := select_all table_name in
     ret (print_results table_name results))
    (fun err => ret []).

(** How a run of [user_interface] over the lines typed so far stands: the
    loop was left by choice 2, or it waits at one of its two [input]
    calls, or a [mysql.connector.Error] ended it. *)
Inductive menu_state : Type :=
| Exited
| AwaitingChoice
| AwaitingTerm
| DatabaseError.

(** The [while True] loop of [user_interface] over the lines typed. *)
Fixpoint user_interface_loop (inputs : list string) : M menu_state :=
  match inputs with
  | [] => ret AwaitingChoice
  | choice :: rest =>
      if String.eqb choice "1"
      then match rest with
           | [] => ret AwaitingTerm
           | search_term :: rest' =>
               search_for_term search_term "search_results_user" ;;;
               user_interface_loop rest'
           end
      else if String.eqb choice "2" then ret Exited
      else user_interface_loop rest
  end.

Definition user_interface (inputs : list string) : M menu_state :=
  try_except_mysql (user_interface_loop inputs) (fun err => ret DatabaseError).

(** ** More notions and sample data *)

(** A record holds the term: in its file name or in its content, ignoring
    case. *)
Definition holds_term (search_term : string) (r : FileRecord) : bool :=
  Str.contains (Str.lower search_term) (Str.lower (file_name r))
  || Str.contains (Str.lower search_term) (Str.lower (content r)).

(** A tree with a link that leads nowhere between two files. *)
Definition dangling_fs : filesystem :=
  {| mount := "/srv";
     tree := [ File "a.txt" (Some 1) (Text "a");
               File "link" None Denied;
               File "z.txt" (Some 1) (Text "z") ] |}.

(** The catalog of [c'] is the catalog of [c] with rows appended for paths
    [c] did not have, one row a path. *)
Definition catalog_grows (c c' : connection) : Prop :=
  exists added : list FileRecord,
    files_info (session c') = files_info (session c) ++ added /\
    Forall (fun r => full_path r ∉ catalog_paths c) added /\
    NoDup (full_path <$> added).

(** The line [search_for_term] prints for a row of its table. *)
Definition result_line (row : SearchResultRow) : string :=
  "File Name: " +:+ row_file_name row
  +:+ ", Full Path: " +:+ row_full_path row
  +:+ ", Occurrences: " +:+ str (VInt (occurrences row))
  +:+ ", File Type: " +:+ row_file_type row.

(** The state with the catalog emptied and committed. *)
Definition catalog_emptied (c : connection) : connection :=
  let s := {| files_info := []; search_tables := search_tables (session c) |} in
  {| committed := s; session := s |}.

(** The state a pass over [dangling_fs] leaves on a new database: the pass
    is ended by [os.path.getsize] on the link, with a row staged. *)
Definition aborted_pass : connection :=
  state_after (insert_file_info accepts_all dangling_fs "/srv") new_connection.

(** ** Text beyond ASCII

    [Str] holds for ASCII text.  Python's [str] is a sequence of code
    points, and [lower] can give two code points for one: U+0130, the
    capital I with a dot above, becomes i followed by the combining dot
    U+0307.  [Unicode] has the text as code points and line 115 of the
    script, [content.lower().count(search_term.lower())], over it.  The
    case table is the ASCII letters and U+0130; on the code points of an
    8-bit string it is the table of [Str.lower_char]. *)

Module Unicode.

Definition text : Type := list N.

(** [c.lower()] *)
Definition lower_char (c : N) : text :=
  if (65 <=? c)%N && (c <=? 90)%N then [(c + 32)%N]
  else if (c =? 304)%N then [105%N; 775%N]
  else [c].

(** [s.lower()] *)
Definition lower (s : text) : text := flat_map lower_char s.

(** [s.startswith(sub)] *)
Fixpoint startswith (s sub : text) : bool :=
  match sub, s with
  | [], _ => true
  | _ :: _, [] => false
  | a :: sub', b :: s' => (a =? b)%N && startswith s' sub'
  end.

(** [s.count(sub)], as in [Str]. *)
Fixpoint count_scan (sub s : text) (skip : nat) : nat :=
  match s with
  | [] => 0
  | _ :: s' =>
      match skip with
      | S k => count_scan sub s' k
      | O =>
          if startswith s sub
          then S (count_scan sub s' (length sub - 1))
          else count_scan sub s' 0
      end
  end.

Definition count (s sub : text) : nat :=
  match sub with
  | [] => length s + 1
  | _ :: _ => count_scan sub s 0
  end.

(** [occurrences = content.lower().count(search_term.lower())] *)
Definition occurrences (content search_term : text) : nat :=
  count (lower content) (lower search_term).

(** The code points of an 8-bit string. *)
Fixpoint of_string (s : string) : text :=
  match s with
  | EmptyString => []
  | String a s' => N_of_ascii a :: of_string s'
  end.

End Unicode.

(** ** Upper case, said without [Str.upper] *)



(** ** Well-formed trees

    What a directory listing gives: names that are not empty and hold no
    separator, no two entries of one directory with the same name. *)

Fixpoint no_sep (s : string) : bool :=
  match s with
  | EmptyString => true
  | String a s' => negb (Ascii.eqb a OsPath.sep) && no_sep s'
  end.

Definition wf_name (name : string) : Prop := name <> "" /\ no_sep name = true.

#[warnings="-register-all"]
Inductive wf_entry : entry -> Prop :=
| wf_file name size data :
    wf_name name -> wf_entry (File name size data)
| wf_dir name l :
    wf_name name -> NoDup (entry_name <$> l) -> Forall wf_entry l ->
    wf_entry (Dir name l).

Definition wf_filesystem (fs : filesystem) : Prop :=
  NoDup (entry_name <$> tree fs) /\ Forall wf_entry (tree fs).

(** The entries of a tree with their paths, in the order [find_entry] goes
    through them. *)
Fixpoint entry_paths (top : string) (e : entry) : list (string * entry) :=
  let path := OsPath.join top (entry_name e) in
  (path, e) ::
  match e with
  | File _ _ _ => []
  | Dir _ l => flat_map (entry_paths path) l
  end.

Definition listing_paths (top : string) (l : list entry)
    : list (string * entry) :=
  flat_map (entry_paths top) l.

(** The first entry at a path in such a list. *)
Fixpoint first_at (p : string) (l : list (string * entry)) : option entry :=
  match l with
  | [] => None
  | (q, e) :: l' => if String.eqb q p then Some e else first_at p l'
  end.

(** What [os.path.join] puts before a name: the directory, with a
    separator unless it is empty or ends in one. *)
Definition dir_prefix (top : string) : string :=
  if String.eqb top "" || Str.endswith_char top OsPath.sep then top
  else top +:+ String OsPath.sep EmptyString.
(** * Properties *)

(** ** Strings *)

Example count_hello :
  Str.count (Str.lower "Hello hello world") (Str.lower "hello") = 2.
Proof. reflexivity. Qed.

Example count_no_overlap :
  Str.count "aaaa" "aa" = 2 /\ Str.count "aaa" "aa" = 1.
Proof. split; reflexivity. Qed.

Example count_empty : Str.count "abc" "" = 4.
Proof. reflexivity. Qed.

Example rfind_ex :
  Str.rfind "/a/b.TXT" "/"%char = 2%Z /\ Str.rfind "ab" "/"%char = (-1)%Z.
Proof. split; reflexivity. Qed.

Example splitext_ex :
  OsPath.splitext "/a/b.TXT" = ("/a/b", ".TXT") /\
  OsPath.splitext "/a/b" = ("/a/b", "") /\
  OsPath.splitext "/a.d/b" = ("/a.d/b", "") /\
  OsPath.splitext "/a/.bashrc" = ("/a/.bashrc", "") /\
  OsPath.splitext "/a/..x.tar.gz" = ("/a/..x.tar", ".gz") /\
  OsPath.splitext "b." = ("b", ".") /\
  OsPath.nt_splitext "D:\1\b.TXT" = ("D:\1\b", ".TXT").
Proof. repeat split. Qed.

Example join_ex :
  OsPath.join "/srv" "a.txt" = "/srv/a.txt" /\
  OsPath.join "/" "a.txt" = "/a.txt" /\
  OsPath.join "" "a.txt" = "a.txt" /\
  OsPath.join "/srv" "/etc" = "/etc".
Proof. repeat split. Qed.

Example basename_ex :
  OsPath.basename "a.txt" = "a.txt" /\ OsPath.basename "/srv/a.txt" = "a.txt".
Proof. repeat split. Qed.

Lemma startswith_empty (s : string) : Str.startswith s "" = true.
Proof. destruct s; reflexivity. Qed.

Lemma contains_empty (s : string) : Str.contains "" s = true.
Proof. destruct s; reflexivity. Qed.

Lemma contains_cons (sub : string) (a : ascii) (s : string) :
  Str.contains sub (String a s)
  = Str.startswith (String a s) sub || Str.contains sub s.
Proof. reflexivity. Qed.

(** A counted match is a match somewhere. *)
Lemma count_scan_contains (sub s : string) (skip : nat) :
  (0 < Str.count_scan sub s skip)%nat -> Str.contains sub s = true.
Proof.
  revert skip.
  induction s as [|a s IH]; intros skip Hpos.
  - simpl in Hpos. lia.
  - rewrite contains_cons. cbn [Str.count_scan] in Hpos.
    destruct skip as [|k].
    + destruct (Str.startswith (String a s) sub) eqn:Hsw; [reflexivity|].
      simpl. eapply IH, Hpos.
    + rewrite (IH k Hpos). apply orb_true_r.
Qed.

(** A match somewhere is counted by a scan that starts unhindered. *)
Lemma contains_count_scan (sub s : string) :
  Str.contains sub s = true -> sub <> "" ->
  (0 < Str.count_scan sub s 0)%nat.
Proof.
  intros Hc Hne.
  induction s as [|a s IH].
  - destruct sub; [congruence | discriminate].
  - rewrite contains_cons in Hc. cbn [Str.count_scan].
    destruct (Str.startswith (String a s) sub) eqn:Hsw; [lia|].
    simpl in Hc. auto.
Qed.

(** [s.count(sub) > 0] exactly when [sub in s]. *)
Lemma count_pos_iff (s sub : string) :
  (0 < Str.count s sub)%nat <-> Str.contains sub s = true.
Proof.
  destruct sub as [|a sub].
  - rewrite contains_empty. simpl. split; [reflexivity | lia].
  - unfold Str.count. split.
    + apply count_scan_contains.
    + intros H. apply contains_count_scan; [assumption | discriminate].
Qed.

(** ** Paths *)

(** [rfind] answers [-1] or the index of an occurrence of the character. *)
Lemma rfind_from_spec (c : ascii) (s : string) (i last : Z) :
  Str.rfind_from c s i last = last \/
  ((i <= Str.rfind_from c s i last)%Z /\
   exists rest,
     Str.slice_from s (Z.to_nat (Str.rfind_from c s i last - i)) = String c rest).
Proof.
  revert i last.
  induction s as [|a s IH]; intros i last; simpl; [now left|].
  destruct (IH (i + 1)%Z (if Ascii.eqb a c then i else last))
    as [Heq | [Hle [rest Hrest]]].
  - rewrite Heq. destruct (Ascii.eqb a c) eqn:Hac; [|now left].
    right. split; [lia|]. apply Ascii.eqb_eq in Hac. subst a.
    exists s. now rewrite Z.sub_diag.
  - right. split; [lia|]. exists rest.
    set (j := Str.rfind_from c s (i + 1) (if Ascii.eqb a c then i else last)) in *.
    replace (Z.to_nat (j - i)) with (S (Z.to_nat (j - (i + 1)))) by lia.
    exact Hrest.
Qed.

Lemma rfind_spec (s : string) (c : ascii) :
  Str.rfind s c = (-1)%Z \/
  ((0 <= Str.rfind s c)%Z /\
   exists rest, Str.slice_from s (Z.to_nat (Str.rfind s c)) = String c rest).
Proof.
  unfold Str.rfind.
  destruct (rfind_from_spec c s 0 (-1)) as [H | [Hle [rest Hrest]]];
    [now left | right].
  split; [assumption|]. exists rest. now rewrite Z.sub_0_r in Hrest.
Qed.

(** The extension [splitext] answers is empty or begins with the dot. *)
Lemma splitext_ext (p : string) :
  snd (OsPath.splitext p) = "" \/
  exists rest, snd (OsPath.splitext p) = String "."%char rest.
Proof.
  unfold OsPath.splitext, OsPath.genericpath_splitext.
  destruct (_ && _) eqn:Hcond; [|now left].
  apply andb_true_iff in Hcond as [Hlt _]. apply Z.ltb_lt in Hlt.
  right. simpl.
  destruct (rfind_spec p OsPath.sep) as [Hs | [Hs _]];
    destruct (rfind_spec p OsPath.extsep) as [Hd | [_ [rest Hd]]];
    try lia; exists rest; exact Hd.
Qed.

(** ** The classifier *)

Lemma get_file_type_dir (fs : filesystem) (p : string) :
  isdir fs p = true -> get_file_type fs p = "Directory".
Proof. intros H. unfold get_file_type. now rewrite H. Qed.

Lemma get_file_type_file (fs : filesystem) (p : string) :
  isdir fs p = false ->
  (snd (OsPath.splitext p) = "" /\ get_file_type fs p = "Unknown") \/
  (exists rest, snd (OsPath.splitext p) = String "."%char rest /\
                get_file_type fs p = Str.upper rest).
Proof.
  intros H. unfold get_file_type. rewrite H.
  destruct (splitext_ext p) as [He | [rest He]]; rewrite He.
  - now left.
  - right. exists rest. split; [reflexivity | simpl; reflexivity].
Qed.

(** C8. [get_file_content] answers the empty string for a directory, the
    text of the file when reading succeeds and ["Unreadable"] when reading
    raises; whatever the path, it returns and does not raise. *)
Theorem get_file_content_total (fs : filesystem) (p : string) :
  (isdir fs p = true -> get_file_content fs p = Ok "") /\
  (forall text, isdir fs p = false -> open_read fs p = Ok text ->
                get_file_content fs p = Ok text) /\
  (forall e, isdir fs p = false -> open_read fs p = Raise e ->
             get_file_content fs p = Ok "Unreadable") /\
  (exists text, get_file_content fs p = Ok text).
Proof.
  unfold get_file_content. repeat split.
  - intros ->. reflexivity.
  - intros text -> ->. reflexivity.
  - intros e -> ->. reflexivity.
  - destruct (isdir fs p); [now exists ""|].
    destruct (open_read fs p) as [text|e]; eauto.
Qed.

(** ** The search pass *)

Lemma zero_or_self (n : nat) : (if (n =? 0)%nat then 0 else n) = n.
Proof. destruct n; reflexivity. Qed.

(** One turn of the loop appends [search_row] of the record, if any. *)
Lemma search_for_term_file_run (search_term table_name : string)
    (r : FileRecord) (rows : list SearchResultRow) (c : connection) :
  table_name <> "files_info" ->
  search_tables (session c) !! table_name = Some rows ->
  search_for_term_file search_term table_name (file_tuple r) c
  = (Ok tt,
     {| committed := committed c;
        session :=
          {| files_info := files_info (session c);
             search_tables :=
               <[table_name :=
                   rows ++ match search_row search_term r with
                           | Some row => [row]
                           | None => []
                           end]> (search_tables (session c)) |} |}).
Proof.
  intros Hname Hrows.
  apply String.eqb_neq in Hname.
  unfold search_for_term_file, file_tuple, search_row.
  rewrite zero_or_self.
  destruct (Str.contains _ _); simpl.
  - unfold insert_row. now rewrite Hname, Hrows.
  - destruct (0 <? _)%nat.
    + unfold insert_row. now rewrite Hname, Hrows.
    + unfold ret. rewrite app_nil_r, insert_id by assumption.
      destruct c as [cm [fi st]]; reflexivity.
Qed.

Lemma search_loop_run (search_term table_name : string)
    (files : list FileRecord) :
  table_name <> "files_info" ->
  forall (rows : list SearchResultRow) (c : connection),
    search_tables (session c) !! table_name = Some rows ->
    for_each (map file_tuple files)
             (search_for_term_file search_term table_name) c
    = (Ok tt,
       {| committed := committed c;
          session :=
            {| files_info := files_info (session c);
               search_tables :=
                 <[table_name := rows ++ omap (search_row search_term) files]>
                   (search_tables (session c)) |} |}).
Proof.
  intros Hname.
  induction files as [|r files IH]; intros rows c Hrows.
  - simpl. unfold ret. rewrite app_nil_r, insert_id by assumption.
    destruct c as [cm [fi st]]; reflexivity.
  - cbn [map for_each]. unfold bind at 1.
    rewrite (search_for_term_file_run _ _ _ rows) by assumption.
    erewrite IH by (simpl; apply lookup_insert_eq).
    simpl. rewrite insert_insert_eq, <- app_assoc.
    destruct (search_row search_term r); reflexivity.
Qed.

Lemma bind_ok {A B : Type} (m : M A) (k : A -> M B) (c c' : connection) (a : A) :
  m c = (Ok a, c') -> bind m k c = k a c'.
Proof. intros H. unfold bind. now rewrite H. Qed.

Lemma bind_raise {A B : Type} (m : M A) (k : A -> M B) (c c' : connection)
    (e : exception) :
  m c = (Raise e, c') -> bind m k c = (Raise e, c').
Proof. intros H. unfold bind. now rewrite H. Qed.

Lemma try_except_mysql_ok {A : Type} (body : M A) (handler : exception -> M A)
    (c c' : connection) (a : A) :
  body c = (Ok a, c') -> try_except_mysql body handler c = (Ok a, c').
Proof. intros H. unfold try_except_mysql. now rewrite H. Qed.

(** [create_search_table] returns, with the transaction committed and the
    table there. *)
Lemma create_search_table_run (table_name : string) (c : connection) :
  table_name <> "files_info" ->
  exists s : store,
    create_search_table table_name c
    = (Ok tt, {| committed := s; session := s |}) /\
    files_info s = files_info (session c) /\
    is_Some (search_tables s !! table_name) /\
    forall rows, <[table_name := rows]> (search_tables s)
                 = <[table_name := rows]> (search_tables (session c)).
Proof.
  intros Hname. apply String.eqb_neq in Hname.
  unfold create_search_table, create_table_if_not_exists.
  rewrite Hname.
  destruct (search_tables (session c) !! table_name) as [old|] eqn:Hold.
  - exists (session c). repeat split; [|eauto].
    apply try_except_mysql_ok. unfold ddl. now rewrite Hold.
  - eexists. split; [|split; [|split]].
    + apply try_except_mysql_ok. unfold ddl. rewrite Hold. reflexivity.
    + reflexivity.
    + simpl. rewrite lookup_insert_eq. eauto.
    + intros rows. simpl. apply insert_insert_eq.
Qed.

Lemma truncate_table_run (table_name : string) (c : connection) :
  table_name <> "files_info" ->
  is_Some (search_tables (session c) !! table_name) ->
  truncate_table table_name c
  = (Ok tt,
     let s := {| files_info := files_info (session c);
                 search_tables := <[table_name := []]> (search_tables (session c)) |} in
     {| committed := s; session := s |}).
Proof.
  intros Hname [old Hold]. apply String.eqb_neq in Hname.
  unfold truncate_table. now rewrite Hname, Hold.
Qed.

(** What a whole search pass does: the named table holds the rows of the
    records of the catalog, in catalog order, and everything is
    committed. *)
Lemma search_for_term_run (search_term table_name : string) (c : connection) :
  table_name <> "files_info" ->
  search_for_term search_term table_name c
  = (Ok tt,
     let s :=
       {| files_info := files_info (session c);
          search_tables :=
            <[table_name := omap (search_row search_term)
                                 (files_info (session c))]>
              (search_tables (session c)) |} in
     {| committed := s; session := s |}).
Proof.
  intros Hname.
  destruct (create_search_table_run table_name c Hname)
    as (s & Hcreate & Hfiles & Htable & Hins).
  unfold search_for_term.
  rewrite (bind_ok _ _ _ _ _ Hcreate).
  apply try_except_mysql_ok.
  rewrite (bind_ok _ _ _ _ _
             (truncate_table_run table_name {| committed := s; session := s |}
                                 Hname Htable)).
  cbn zeta. cbn [session committed].
  unfold select_files at 1. unfold bind at 1.
  cbn [session committed files_info].
  erewrite bind_ok
    by (apply search_loop_run with (rows := []);
        [assumption | simpl; apply lookup_insert_eq]).
  unfold commit. cbn [session committed files_info search_tables].
  rewrite !insert_insert_eq, Hins, Hfiles. reflexivity.
Qed.

Lemma rows_after_search (search_term table_name : string) (c : connection) :
  table_name <> "files_info" ->
  rows_of table_name (state_after (search_for_term search_term table_name) c)
  = omap (search_row search_term) (files_info (session c)).
Proof.
  intros Hname. unfold state_after, rows_of.
  rewrite search_for_term_run by assumption.
  simpl. now rewrite lookup_insert_eq.
Qed.

Lemma search_row_name_match (search_term : string) (r : FileRecord) :
  Str.contains (Str.lower search_term) (Str.lower (file_name r)) = true ->
  search_row search_term r
  = Some (result_row r (Str.count (Str.lower (content r))
                                  (Str.lower search_term))).
Proof. intros H. unfold search_row. now rewrite H. Qed.

Lemma search_row_no_name_match (search_term : string) (r : FileRecord) :
  Str.contains (Str.lower search_term) (Str.lower (file_name r)) = false ->
  search_row search_term r
  = let n := Str.count (Str.lower (content r)) (Str.lower search_term) in
    if (0 <? n)%nat then Some (result_row r n) else None.
Proof. intros H. unfold search_row. now rewrite H. Qed.

Lemma sample_catalog_files :
  files_info (session sample_catalog)
  = [ report_record;
      {| file_name := "notes"; full_path := "/srv/notes";
         file_extension := ""; file_size := 0; file_type := "Unknown";
         content := "" |};
      hello_record; blob_record ].
Proof. vm_compute. reflexivity. Qed.

(** C1, as the specification has it, fails: [hello_record] is found by name
    with the term ["hello"], its content holds the term once, and the row
    written for it carries 1, not 0. *)
Lemma name_match_row_not_zeroed :
  ~ (forall (c : connection) (search_term table_name : string) (r : FileRecord),
       table_name <> "files_info" ->
       r ∈ files_info (session c) ->
       Str.contains (Str.lower search_term) (Str.lower (file_name r)) = true ->
       result_row r 0
       ∈ rows_of table_name
           (state_after (search_for_term search_term table_name) c)).
Proof.
  intros claim.
  specialize (claim sample_catalog "hello" "search_results_user" hello_record).
  rewrite rows_after_search, sample_catalog_files in claim by discriminate.
  assert (H : result_row hello_record 0
              ∈ [result_row report_record 2; result_row hello_record 1]).
  { apply claim; [discriminate | | reflexivity].
    rewrite !elem_of_cons. tauto. }
  rewrite !elem_of_cons, elem_of_nil in H.
  destruct H as [H | [H | []]]; discriminate H.
Qed.

(** C1, amended. When the term is, ignoring case, a substring of the file
    name of a record of the catalog, the search writes a row for that
    record, and the row carries the count of the term in the content of
    the record (0 when the content does not hold the term). *)
Theorem name_match_row_carries_count (c : connection)
    (search_term table_name : string) (r : FileRecord) :
  table_name <> "files_info" ->
  r ∈ files_info (session c) ->
  Str.contains (Str.lower search_term) (Str.lower (file_name r)) = true ->
  result_row r (Str.count (Str.lower (content r)) (Str.lower search_term))
  ∈ rows_of table_name
      (state_after (search_for_term search_term table_name) c).
Proof.
  intros Hname Hin Hmatch.
  rewrite rows_after_search by assumption.
  apply list_elem_of_omap. exists r. split; [assumption|].
  now apply search_row_name_match.
Qed.

(** C5. After a search the table holds, in catalog order, what
    [search_row] gives for each record; for a record whose file name does
    not hold the term, that is a row exactly when the count of the term in
    the content, ignoring case and without overlaps, is positive, and the
    row carries that count.  The count of ["hello"] in
    ["Hello hello world"] is 2, and it is a count without overlaps. *)
Theorem content_match_row_iff_count_positive (c : connection)
    (search_term table_name : string) :
  table_name <> "files_info" ->
  rows_of table_name (state_after (search_for_term search_term table_name) c)
  = omap (search_row search_term) (files_info (session c)) /\
  (forall r : FileRecord,
     Str.contains (Str.lower search_term) (Str.lower (file_name r)) = false ->
     let n := Str.count (Str.lower (content r)) (Str.lower search_term) in
     ((0 < n)%nat -> search_row search_term r = Some (result_row r n)) /\
     (n = 0 -> search_row search_term r = None)) /\
  Str.count (Str.lower "Hello hello world") (Str.lower "hello") = 2 /\
  Str.count (Str.lower "aaa") (Str.lower "aa") = 1.
Proof.
  intros Hname. split; [now apply rows_after_search|].
  split; [|split; reflexivity].
  intros r Hno n. rewrite (search_row_no_name_match _ _ Hno). fold n.
  split; intros Hn.
  - apply Nat.ltb_lt in Hn. cbn zeta. now rewrite Hn.
  - cbn zeta. now rewrite Hn.
Qed.

(** C6. Two searches in a row on one table leave exactly what the second
    alone writes: the rows of the second term over the catalog, which the
    first search did not change; the state is the one the second search
    alone would have left. *)
Theorem second_search_replaces_first (c : connection)
    (term1 term2 table_name : string) :
  table_name <> "files_info" ->
  let c1 := state_after (search_for_term term1 table_name) c in
  let c2 := state_after (search_for_term term2 table_name) c1 in
  files_info (session c1) = files_info (session c) /\
  rows_of table_name c2 = omap (search_row term2) (files_info (session c1)) /\
  c2 = state_after (search_for_term term2 table_name) c.
Proof.
  intros Hname c1 c2. subst c1 c2. unfold state_after.
  rewrite !search_for_term_run by assumption.
  cbn [snd session committed files_info search_tables].
  repeat split.
  - unfold rows_of. simpl. now rewrite lookup_insert_eq.
  - now rewrite insert_insert_eq.
Qed.

(** C10. A record whose content could not be read holds the text
    ["Unreadable"]; when the file name does not hold the term and
    ["Unreadable"] does, ignoring case, the search writes a row for the
    record with a positive count, the count of the term in that text. *)
Theorem unreadable_text_is_searched (fs : filesystem) (c : connection)
    (search_term table_name : string) (r : FileRecord) (e : exception) :
  table_name <> "files_info" ->
  r ∈ files_info (session c) ->
  isdir fs (full_path r) = false ->
  open_read fs (full_path r) = Raise e ->
  get_file_content fs (full_path r) = Ok (content r) ->
  Str.contains (Str.lower search_term) (Str.lower (file_name r)) = false ->
  Str.contains (Str.lower search_term) (Str.lower "Unreadable") = true ->
  content r = "Unreadable" /\
  exists n : nat,
    (0 < n)%nat /\
    n = Str.count (Str.lower "Unreadable") (Str.lower search_term) /\
    result_row r n
    ∈ rows_of table_name
        (state_after (search_for_term search_term table_name) c).
Proof.
  intros Hname Hin Hdir Hread Hcontent Hno Hyes.
  assert (Hsentinel : content r = "Unreadable").
  { unfold get_file_content in Hcontent. rewrite Hdir, Hread in Hcontent.
    congruence. }
  split; [assumption|].
  exists (Str.count (Str.lower "Unreadable") (Str.lower search_term)).
  apply count_pos_iff in Hyes.
  repeat split; [assumption|].
  rewrite rows_after_search by assumption.
  apply list_elem_of_omap. exists r. split; [assumption|].
  rewrite (search_row_no_name_match _ _ Hno), Hsentinel. cbn zeta.
  apply Nat.ltb_lt in Hyes. now rewrite Hyes.
Qed.

(** ** Loops *)

(** A relation between states that every turn of a loop respects holds
    between the state before and the state after the loop, however the
    loop ends. *)
Lemma for_each_respects {A : Type} (R : connection -> connection -> Prop)
    (l : list A) (body : A -> M unit) :
  (forall c, R c c) ->
  (forall c1 c2 c3, R c1 c2 -> R c2 c3 -> R c1 c3) ->
  (forall x c, x ∈ l -> R c (snd (body x c))) ->
  forall c, R c (snd (for_each l body c)).
Proof.
  intros Hrefl Htrans.
  induction l as [|x l IH]; intros Hbody c; [apply Hrefl|].
  cbn [for_each]. unfold bind.
  pose proof (Hbody x c ltac:(left)) as Hx.
  destruct (body x c) as [[[]|e] c1]; cbn [snd] in *; [|assumption].
  eapply Htrans; [exact Hx|].
  apply IH. intros y c' Hy. apply Hbody. now right.
Qed.

(** What a turn establishes, and later turns keep, holds for every item
    once the loop has run to its end. *)
Lemma for_each_establishes {A : Type} (Q : A -> connection -> Prop)
    (l : list A) (body : A -> M unit) :
  (forall x c c', body x c = (Ok tt, c') -> Q x c') ->
  (forall x y c c' res, Q x c -> body y c = (res, c') -> Q x c') ->
  forall c c', for_each l body c = (Ok tt, c') -> Forall (fun x => Q x c') l.
Proof.
  intros Hest Hkeep.
  induction l as [|x l IH]; intros c c' Hrun; [constructor|].
  cbn [for_each] in Hrun. unfold bind in Hrun.
  destruct (body x c) as [[[]|e] c1] eqn:Hx; [|discriminate].
  constructor; [|eapply IH, Hrun].
  apply Hest in Hx. clear IH.
  revert c1 Hx Hrun. induction l as [|y l IHl]; intros c1 Hx Hrun.
  - cbn in Hrun. unfold ret in Hrun. congruence.
  - cbn [for_each] in Hrun. unfold bind in Hrun.
    destruct (body y c1) as [[[]|e] c2] eqn:Hy; [|discriminate].
    eapply IHl; [|exact Hrun]. eapply Hkeep; eassumption.
Qed.

(** A loop whose every turn returns without a change returns without a
    change. *)
Lemma for_each_unchanged {A : Type} (l : list A) (body : A -> M unit)
    (c : connection) :
  (forall x, x ∈ l -> body x c = (Ok tt, c)) ->
  for_each l body c = (Ok tt, c).
Proof.
  induction l as [|x l IH]; intros Hbody; [reflexivity|].
  cbn [for_each]. rewrite (bind_ok _ _ _ _ _ (Hbody x ltac:(left))).
  apply IH. intros y Hy. apply Hbody. now right.
Qed.

(** A loop that raises raises in one of its turns. *)
Lemma for_each_raises {A : Type} (l : list A) (body : A -> M unit)
    (c c' : connection) (e : exception) :
  for_each l body c = (Raise e, c') ->
  exists x c0, x ∈ l /\ body x c0 = (Raise e, c').
Proof.
  revert c. induction l as [|x l IH]; intros c Hrun; [discriminate|].
  cbn [for_each] in Hrun. unfold bind in Hrun.
  destruct (body x c) as [[[]|e1] c1] eqn:Hx.
  - destruct (IH _ Hrun) as (y & c0 & Hy & Hbody).
    exists y, c0. split; [now right | assumption].
  - exists x, c. split; [now left | congruence].
Qed.

(** ** The scan pass *)

Lemma count_pos_existsb {A : Type} (f : A -> bool) (l : list A) :
  (0 <? length (List.filter f l))%nat = existsb f l.
Proof.
  induction l as [|x l IH]; [reflexivity|].
  simpl. destruct (f x); [reflexivity | exact IH].
Qed.

Lemma existsb_path (p : string) (l : list FileRecord) :
  existsb (fun r => String.eqb (full_path r) p) l = true
  <-> p ∈ full_path <$> l.
Proof.
  induction l as [|r l IH]; cbn [existsb].
  - rewrite fmap_nil, elem_of_nil. split; [discriminate | tauto].
  - rewrite fmap_cons, elem_of_cons, orb_true_iff, IH, String.eqb_eq.
    split; intros [H|H]; auto.
Qed.

Lemma existsb_path_false (p : string) (l : list FileRecord) :
  existsb (fun r => String.eqb (full_path r) p) l = false
  <-> p ∉ full_path <$> l.
Proof.
  rewrite <- existsb_path. destruct (existsb _ l); split; congruence.
Qed.

Lemma file_exists_run (p : string) (c : connection) :
  file_exists p c
  = (Ok (existsb (fun r => String.eqb (full_path r) p)
                 (files_info (session c))), c).
Proof.
  unfold file_exists, bind, select_count_by_path, ret.
  now rewrite count_pos_existsb.
Qed.

Lemma get_file_content_returns (fs : filesystem) (p : string) :
  exists text, get_file_content fs p = Ok text.
Proof.
  unfold get_file_content.
  destruct (isdir fs p); [now exists ""|].
  destruct (open_read fs p) as [text|e]; eauto.
Qed.

Section ScanPass.

Variable server_rejects : FileRecord -> bool.
Variable fs : filesystem.

(** A turn of the inner loop, statement by statement. *)
Lemma insert_file_info_file_run (root file : string) (c : connection) :
  let p := OsPath.join root file in
  insert_file_info_file server_rejects fs root file c
  = if existsb (fun r => String.eqb (full_path r) p) (files_info (session c))
    then (Ok tt, c)
    else match getsize fs p, get_file_content fs p with
         | Ok size, Ok text =>
             insert_file server_rejects
               {| file_name := OsPath.basename file; full_path := p;
                  file_extension := snd (OsPath.splitext file);
                  file_size := size; file_type := get_file_type fs p;
                  content := text |} c
         | Ok _, Raise e => (Raise e, c)
         | Raise e, _ => (Raise e, c)
         end.
Proof.
  intros p. unfold insert_file_info_file. fold p.
  rewrite (bind_ok _ _ _ _ _ (file_exists_run p c)).
  destruct (existsb _ _); [reflexivity|].
  unfold bind, lift.
  destruct (getsize fs p); [|reflexivity].
  destruct (get_file_content fs p); reflexivity.
Qed.

(** The three ways a turn of the inner loop goes: the path is known and
    nothing happens; the size cannot be had and [OSError] is raised; the
    record is built and the server either refuses it or stores it. *)
Lemma insert_file_info_file_cases (root file : string) (c : connection) :
  let p := OsPath.join root file in
  let run := insert_file_info_file server_rejects fs root file c in
  (p ∈ catalog_paths c /\ run = (Ok tt, c)) \/
  ((p ∉ catalog_paths c) /\
   exists what, getsize fs p = Raise (OSError what) /\
                run = (Raise (OSError what), c)) \/
  ((p ∉ catalog_paths c) /\
   exists r, record_of fs root file r /\
     ((server_rejects r = true /\ run = (Raise (MySQLError "Data error"), c)) \/
      (server_rejects r = false /\
       run = (Ok tt, {| committed := committed c;
                        session := append_file r (session c) |})))).
Proof.
  intros p run. subst run. rewrite insert_file_info_file_run. fold p.
  destruct (existsb _ _) eqn:Hknown.
  - left. split; [now apply existsb_path | reflexivity].
  - right. apply existsb_path_false in Hknown as Hnew.
    destruct (getsize fs p) as [size|e] eqn:Hsize.
    + right. split; [assumption|].
      destruct (get_file_content_returns fs p) as (text & Htext).
      rewrite Htext.
      eexists {| file_name := _; full_path := p; |}.
      split; [repeat split; cbn; eassumption || reflexivity|].
      unfold insert_file. cbn [full_path]. rewrite Hknown.
      destruct (server_rejects _); [left | right]; split; reflexivity.
    + left. split; [assumption|].
      unfold getsize in Hsize.
      destruct (stat fs p) as [[? [?|] ?|]|]; try discriminate;
        injection Hsize as <-; eexists; split; reflexivity.
Qed.

Lemma extends_by_refl (P : FileRecord -> Prop) (c : connection) :
  extends_by P c c.
Proof.
  repeat split. exists []. rewrite app_nil_r.
  repeat split; constructor.
Qed.

Lemma extends_by_trans (P : FileRecord -> Prop) (c1 c2 c3 : connection) :
  extends_by P c1 c2 -> extends_by P c2 c3 -> extends_by P c1 c3.
Proof.
  intros (Hc12 & Ht12 & a1 & Hf12 & HP1 & Hnew1 & Hnd1)
         (Hc23 & Ht23 & a2 & Hf23 & HP2 & Hnew2 & Hnd2).
  assert (Hfresh : forall r, r ∈ a2 ->
            (full_path r ∉ catalog_paths c1) /\ (full_path r ∉ full_path <$> a1)).
  { intros r Hr. rewrite Forall_forall in Hnew2. specialize (Hnew2 r Hr).
    unfold catalog_paths in Hnew2. rewrite Hf12, fmap_app, elem_of_app in Hnew2.
    tauto. }
  split; [congruence|]. split; [congruence|].
  exists (a1 ++ a2). rewrite Hf23, Hf12, <- app_assoc.
  split; [reflexivity|]. split; [now apply Forall_app_2|]. split.
  - apply Forall_app_2; [assumption|].
    apply Forall_forall. intros r Hr. now apply Hfresh.
  - rewrite fmap_app. apply NoDup_app. repeat split; try assumption.
    intros p Hp1 Hp2. apply list_elem_of_fmap in Hp2 as (r & -> & Hr).
    now apply (Hfresh r Hr).
Qed.

Lemma extends_by_weaken (P Q : FileRecord -> Prop) (c c' : connection) :
  (forall r, P r -> Q r) -> extends_by P c c' -> extends_by Q c c'.
Proof.
  intros HPQ (Hc & Ht & a & Hf & HP & Hnew & Hnd).
  split; [assumption|]. split; [assumption|].
  exists a. repeat split; try assumption.
  rewrite Forall_forall in HP |- *. auto.
Qed.

(** A turn of the inner loop appends at most the record of its file. *)
Lemma insert_file_info_file_extends (root file : string) (c : connection) :
  extends_by (record_of fs root file) c
    (snd (insert_file_info_file server_rejects fs root file c)).
Proof.
  destruct (insert_file_info_file_cases root file c)
    as [[_ ->] | [(_ & what & _ & ->) | (Hnew & r & Hr & [[_ ->] | [_ ->]])]];
    try apply extends_by_refl.
  cbn [snd]. repeat split. exists [r]. cbn.
  repeat split.
  - now constructor.
  - constructor; [|constructor]. destruct Hr as [-> _]. exact Hnew.
  - apply NoDup_singleton.
Qed.

Lemma extends_by_known (P : FileRecord -> Prop) (c c' : connection)
    (p : string) :
  extends_by P c c' -> p ∈ catalog_paths c -> p ∈ catalog_paths c'.
Proof.
  intros (_ & _ & added & Hf & _) Hp. unfold catalog_paths in *.
  rewrite Hf, fmap_app, elem_of_app. now left.
Qed.

(** The inner loop over the files of one directory. *)
Lemma inner_loop_extends (root : string) (dirs files : list string)
    (directory : string) (c : connection) :
  (root, dirs, files) ∈ os_walk fs directory ->
  extends_by (staged_from_walk fs directory) c
    (snd (for_each files (insert_file_info_file server_rejects fs root) c)).
Proof.
  intros Hin.
  apply for_each_respects;
    [apply extends_by_refl | apply extends_by_trans |].
  intros file c0 Hfile.
  eapply extends_by_weaken; [|apply insert_file_info_file_extends].
  intros r Hr. now exists root, dirs, files, file.
Qed.

(** The walk appends records of listed files, and only those. *)
Lemma walk_extends (directory : string) (c : connection) :
  extends_by (staged_from_walk fs directory) c
    (snd (insert_file_info_walk server_rejects fs directory c)).
Proof.
  unfold insert_file_info_walk.
  apply for_each_respects;
    [apply extends_by_refl | apply extends_by_trans |].
  intros [[root dirs] files] c0 Hin. now apply inner_loop_extends with dirs.
Qed.

(** A turn that returns leaves the path of its file in the catalog. *)
Lemma insert_file_info_file_known (root file : string) (c c' : connection) :
  insert_file_info_file server_rejects fs root file c = (Ok tt, c') ->
  OsPath.join root file ∈ catalog_paths c'.
Proof.
  intros Hrun.
  destruct (insert_file_info_file_cases root file c)
    as [[Hk Heq] | [(_ & what & _ & Heq) | (_ & r & Hr & [[_ Heq] | [_ Heq]])]];
    rewrite Heq in Hrun; try discriminate.
  - congruence.
  - injection Hrun as <-. destruct Hr as [Hpath _].
    unfold catalog_paths. cbn. rewrite fmap_app, elem_of_app. right.
    cbn. rewrite Hpath. now left.
Qed.

(** A walk that returns leaves the path of every listed file in the
    catalog. *)
Lemma walk_ok_all_known (directory : string) (c c' : connection) :
  insert_file_info_walk server_rejects fs directory c = (Ok tt, c') ->
  forall root dirs files file,
    (root, dirs, files) ∈ os_walk fs directory -> file ∈ files ->
    OsPath.join root file ∈ catalog_paths c'.
Proof.
  intros Hrun root dirs files file Hin Hfile.
  unfold insert_file_info_walk in Hrun.
  pose (Q := fun (t : string * list string * list string) (c : connection) =>
               let '(root, _, files) := t in
               forall file, file ∈ files ->
                            OsPath.join root file ∈ catalog_paths c).
  assert (HQ : Forall (fun t => Q t c') (os_walk fs directory)).
  { eapply (for_each_establishes Q); [| |exact Hrun].
    - intros [[root0 dirs0] files0] c0 c1 Hinner. cbn.
      intros file0 Hfile0.
      pose proof (for_each_establishes
                    (fun f c => OsPath.join root0 f ∈ catalog_paths c)
                    files0 (insert_file_info_file server_rejects fs root0))
        as Hest.
      eapply Forall_forall in Hest; [exact Hest | | | exact Hinner | exact Hfile0].
      + intros f ca cb. apply insert_file_info_file_known.
      + intros f g ca cb res Hk Hg.
        eapply extends_by_known; [|exact Hk].
        replace cb with (snd (insert_file_info_file server_rejects fs root0 g ca))
          by now rewrite Hg.
        apply insert_file_info_file_extends.
    - intros [[root0 dirs0] files0] [[root1 dirs1] files1] ca cb res HQ0 Hg.
      cbn in *. intros f Hf.
      eapply extends_by_known; [|apply HQ0, Hf].
      replace cb with
        (snd (for_each files1 (insert_file_info_file server_rejects fs root1) ca))
        by now rewrite Hg.
      apply for_each_respects;
        [apply (extends_by_refl (fun _ => True))
        | apply (extends_by_trans (fun _ => True)) |].
      intros g cg _.
      eapply extends_by_weaken; [|apply insert_file_info_file_extends].
      tauto. }
  rewrite Forall_forall in HQ. exact (HQ _ Hin file Hfile).
Qed.

(** When the catalog has the path of every listed file, the walk returns
    and changes nothing. *)
Lemma walk_all_known_unchanged (directory : string) (c : connection) :
  (forall root dirs files file,
     (root, dirs, files) ∈ os_walk fs directory -> file ∈ files ->
     OsPath.join root file ∈ catalog_paths c) ->
  insert_file_info_walk server_rejects fs directory c = (Ok tt, c).
Proof.
  intros Hknown. unfold insert_file_info_walk.
  apply for_each_unchanged. intros [[root dirs] files] Hin.
  apply for_each_unchanged. intros file Hfile.
  rewrite insert_file_info_file_run.
  specialize (Hknown root dirs files file Hin Hfile).
  apply existsb_path in Hknown. cbn zeta. now rewrite Hknown.
Qed.

(** How [insert_file_info] ends, by how the walk ends. *)
Lemma insert_file_info_commits (directory : string) (c c1 : connection) :
  insert_file_info_walk server_rejects fs directory c = (Ok tt, c1) ->
  insert_file_info server_rejects fs directory c
  = (Ok tt, {| committed := session c1; session := session c1 |}).
Proof.
  intros Hw. unfold insert_file_info. apply try_except_mysql_ok.
  now rewrite (bind_ok _ _ _ _ _ Hw).
Qed.

Lemma insert_file_info_rolls_back (directory : string) (c c1 : connection)
    (what : string) :
  insert_file_info_walk server_rejects fs directory c
  = (Raise (MySQLError what), c1) ->
  insert_file_info server_rejects fs directory c
  = (Ok tt, {| committed := committed c; session := committed c |}).
Proof.
  intros Hw. unfold insert_file_info, try_except_mysql.
  rewrite (bind_raise _ _ _ _ _ Hw). cbn. unfold rollback.
  pose proof (walk_extends directory c) as (Hc & _).
  rewrite Hw in Hc. cbn in Hc. now rewrite Hc.
Qed.

Lemma insert_file_info_propagates (directory : string) (c c1 : connection)
    (e : exception) :
  insert_file_info_walk server_rejects fs directory c = (Raise e, c1) ->
  is_mysql_error e = false ->
  insert_file_info server_rejects fs directory c = (Raise e, c1).
Proof.
  intros Hw He. unfold insert_file_info, try_except_mysql.
  rewrite (bind_raise _ _ _ _ _ Hw). now rewrite He.
Qed.

Lemma clean_eta (c : connection) :
  clean c -> {| committed := committed c; session := committed c |} = c.
Proof. unfold clean. destruct c as [cm ss]. cbn. now intros ->. Qed.

(** A [MySQLError] out of the walk is the server refusing the record of a
    listed file: the [UNIQUE] key cannot be what fails, the path having
    just been looked up. *)
Lemma walk_mysql_error_rejected (directory : string) (c c1 : connection)
    (what : string) :
  insert_file_info_walk server_rejects fs directory c
  = (Raise (MySQLError what), c1) ->
  exists r, staged_from_walk fs directory r /\ server_rejects r = true.
Proof.
  intros Hw. unfold insert_file_info_walk in Hw.
  apply for_each_raises in Hw as ([[root dirs] files] & c0 & Hin & Hinner).
  apply for_each_raises in Hinner as (file & c2 & Hfile & Hbody).
  destruct (insert_file_info_file_cases root file c2)
    as [[_ Heq] | [(_ & w & _ & Heq) | (_ & r & Hr & [[Hrej _] | [_ Heq]])]];
    try (rewrite Heq in Hbody; discriminate).
  exists r. split; [|assumption]. now exists root, dirs, files, file.
Qed.

(** What [insert_file_info] leaves in the session's catalog, when no
    transaction was open at the start. *)
Lemma insert_file_info_appends (directory : string) (c : connection) :
  clean c ->
  exists added : list FileRecord,
    files_info (session (state_after
                           (insert_file_info server_rejects fs directory) c))
    = files_info (session c) ++ added /\
    Forall (staged_from_walk fs directory) added /\
    Forall (fun r => full_path r ∉ catalog_paths c) added /\
    NoDup (full_path <$> added).
Proof.
  intros Hclean. unfold state_after.
  pose proof (walk_extends directory c) as (Hc & _ & added & Hf & HP & Hn & Hd).
  destruct (insert_file_info_walk server_rejects fs directory c)
    as [[[]|e] c1] eqn:Hw; cbn [snd] in *.
  - rewrite (insert_file_info_commits _ _ _ Hw). cbn. eauto.
  - destruct e as [w| |w].
    + rewrite (insert_file_info_propagates _ _ _ _ Hw eq_refl). cbn. eauto.
    + rewrite (insert_file_info_propagates _ _ _ _ Hw eq_refl). cbn. eauto.
    + rewrite (insert_file_info_rolls_back _ _ _ _ Hw). cbn.
      exists []. rewrite app_nil_r, Hclean.
      repeat split; constructor.
Qed.

(** Running the pass again changes nothing. *)
Lemma insert_file_info_twice (directory : string) (c : connection) :
  clean c ->
  (insert_file_info server_rejects fs directory ;;;
   insert_file_info server_rejects fs directory) c
  = insert_file_info server_rejects fs directory c.
Proof.
  intros Hclean.
  destruct (insert_file_info_walk server_rejects fs directory c)
    as [[[]|e] c1] eqn:Hw.
  - pose proof (insert_file_info_commits _ _ _ Hw) as Hrun.
    rewrite (bind_ok _ _ _ _ _ Hrun), Hrun.
    set (c2 := {| committed := session c1; session := session c1 |}).
    assert (Hw2 : insert_file_info_walk server_rejects fs directory c2
                  = (Ok tt, c2)).
    { apply walk_all_known_unchanged. intros root dirs files file Hin Hfile.
      exact (walk_ok_all_known _ _ _ Hw root dirs files file Hin Hfile). }
    now rewrite (insert_file_info_commits _ _ _ Hw2).
  - destruct (is_mysql_error e) eqn:He.
    + destruct e as [| |w]; try discriminate.
      pose proof (insert_file_info_rolls_back _ _ _ _ Hw) as Hrun.
      rewrite (clean_eta _ Hclean) in Hrun.
      now rewrite (bind_ok _ _ _ _ _ Hrun).
    + pose proof (insert_file_info_propagates _ _ _ _ Hw He) as Hrun.
      now rewrite (bind_raise _ _ _ _ _ Hrun).
Qed.

(** A pass that returns leaves no transaction open, so the next pass of
    the monitoring loop starts as this one did. *)
Lemma insert_file_info_leaves_clean (directory : string) (c c' : connection) :
  insert_file_info server_rejects fs directory c = (Ok tt, c') -> clean c'.
Proof.
  intros Hrun.
  destruct (insert_file_info_walk server_rejects fs directory c)
    as [[[]|e] c1] eqn:Hw.
  - rewrite (insert_file_info_commits _ _ _ Hw) in Hrun.
    injection Hrun as <-. reflexivity.
  - destruct e as [w| |w].
    + now rewrite (insert_file_info_propagates _ _ _ _ Hw eq_refl) in Hrun.
    + now rewrite (insert_file_info_propagates _ _ _ _ Hw eq_refl) in Hrun.
    + rewrite (insert_file_info_rolls_back _ _ _ _ Hw) in Hrun.
      injection Hrun as <-. reflexivity.
Qed.

End ScanPass.

Lemma new_connection_clean : clean new_connection.
Proof. reflexivity. Qed.

(** ** What [os.walk] lists *)

Lemma entry_nested_ind (P : entry -> Prop) :
  (forall name size data, P (File name size data)) ->
  (forall name l, Forall P l -> P (Dir name l)) ->
  forall e, P e.
Proof.
  intros Hfile Hdir. fix IH 1. intros [name size data | name l].
  - apply Hfile.
  - apply Hdir. induction l as [|e l IHl]; constructor; [apply IH | exact IHl].
Qed.

Lemma filenames_spec (l : list entry) (file : string) :
  file ∈ filenames l
  <-> exists e, e ∈ l /\ is_dir_entry e = false /\ entry_name e = file.
Proof.
  unfold filenames. rewrite list_elem_of_In, in_map_iff. split.
  - intros (e & Hname & He). apply filter_In in He as [He Hd].
    exists e. rewrite list_elem_of_In. apply negb_true_iff in Hd. auto.
  - intros (e & He & Hd & Hname). exists e. split; [assumption|].
    apply filter_In. rewrite <- list_elem_of_In, Hd. auto.
Qed.

(** ** The scan pass: what is staged, atomicity, repetition *)

(** C2, as the specification has it, fails: [/srv/docs] is a directory
    below the scanned root, [os.walk] visits it, and the pass leaves no
    record for its path in the catalog, nor any record of type
    ["Directory"]. *)
Lemma directory_entry_not_staged :
  ~ (forall (server_rejects : FileRecord -> bool) (fs : filesystem)
            (directory p : string) (dirs files : list string)
            (c : connection),
       isdir fs p = true ->
       p <> directory ->
       (p, dirs, files) ∈ os_walk fs directory ->
       exists r,
         r ∈ files_info (session (state_after
                (insert_file_info server_rejects fs directory) c)) /\
         full_path r = p /\ file_type r = "Directory" /\ content r = "").
Proof.
  intros claim.
  destruct (claim accepts_all sample_fs "/srv" "/srv/docs"
                  ["old"] ["hello.TXT"; "blob.bin"] new_connection)
    as (r & Hin & Hpath & _).
  - reflexivity.
  - discriminate.
  - vm_compute. right. left.
  - fold sample_catalog in Hin. rewrite sample_catalog_files in Hin.
    rewrite !elem_of_cons, elem_of_nil in Hin.
    destruct Hin as [-> | [-> | [-> | [-> | []]]]]; discriminate Hpath.
Qed.

(** C3. The rows a pass inserts stay in the open transaction until the walk
    has run to its end, and are then committed together.  When an
    insertion fails (the server refuses the record of a listed file and
    the walk raises a [MySQLError]), the pass is rolled back: it returns,
    and the connection is as it was before the pass, with no record of the
    pass in the catalog. *)
Theorem scan_pass_all_or_nothing (server_rejects : FileRecord -> bool)
    (fs : filesystem) (directory : string) (c : connection) :
  clean c ->
  (forall c1,
     insert_file_info_walk server_rejects fs directory c = (Ok tt, c1) ->
     committed c1 = committed c /\
     insert_file_info server_rejects fs directory c
     = (Ok tt, {| committed := session c1; session := session c1 |})) /\
  (forall what c1,
     insert_file_info_walk server_rejects fs directory c
     = (Raise (MySQLError what), c1) ->
     (exists r, staged_from_walk fs directory r /\ server_rejects r = true) /\
     insert_file_info server_rejects fs directory c = (Ok tt, c)).
Proof.
  intros Hclean. split.
  - intros c1 Hw. split; [|now apply insert_file_info_commits].
    pose proof (walk_extends server_rejects fs directory c) as (Hc & _).
    now rewrite Hw in Hc.
  - intros what c1 Hw. split; [now apply walk_mysql_error_rejected in Hw|].
    rewrite (insert_file_info_rolls_back _ _ _ _ _ _ Hw).
    now rewrite clean_eta.
Qed.

(** C4. Scanning is idempotent and the catalog append-only.  Two passes in
    a row over one tree leave what one pass leaves.  A pass over any tree
    keeps the rows of the catalog as they are and in place, and appends
    rows for paths the catalog did not have, one row a path: the rows of
    a path already in the catalog are after the pass what they were before,
    whatever is on disk at that path. *)
Theorem scan_idempotent_append_only (server_rejects : FileRecord -> bool)
    (fs : filesystem) (directory : string) (c : connection) :
  clean c ->
  (insert_file_info server_rejects fs directory ;;;
   insert_file_info server_rejects fs directory) c
  = insert_file_info server_rejects fs directory c /\
  forall fs' : filesystem,
    let c' := state_after (insert_file_info server_rejects fs' directory) c in
    (exists added : list FileRecord,
       files_info (session c') = files_info (session c) ++ added /\
       Forall (fun r => full_path r ∉ catalog_paths c) added /\
       NoDup (full_path <$> added)) /\
    (forall p, p ∈ catalog_paths c ->
       filter (fun r => full_path r = p) (files_info (session c'))
       = filter (fun r => full_path r = p) (files_info (session c))).
Proof.
  intros Hclean. split; [now apply insert_file_info_twice|].
  intros fs' c'.
  destruct (insert_file_info_appends server_rejects fs' directory c Hclean)
    as (added & Hf & _ & Hnew & Hnd).
  fold c' in Hf. split; [now exists added|].
  intros p Hp. rewrite Hf, filter_app.
  replace (filter (fun r => full_path r = p) added) with (@nil FileRecord);
    [now rewrite app_nil_r|].
  symmetry. clear Hf Hnd.
  induction added as [|r added IH]; [reflexivity|].
  apply Forall_cons in Hnew as [Hr Hnew].
  rewrite filter_cons_False by (intros <-; contradiction).
  now apply IH.
Qed.

(** ** The statements at the sample data *)

Lemma hello_in_sample_catalog : hello_record ∈ files_info (session sample_catalog).
Proof. rewrite sample_catalog_files. rewrite !elem_of_cons. tauto. Qed.

Lemma blob_in_sample_catalog : blob_record ∈ files_info (session sample_catalog).
Proof. rewrite sample_catalog_files. rewrite !elem_of_cons. tauto. Qed.

Lemma name_match_row_carries_count_witness :
  "search_results_user" <> "files_info" /\
  hello_record ∈ files_info (session sample_catalog) /\
  Str.contains (Str.lower "hello") (Str.lower (file_name hello_record)) = true /\
  result_row hello_record 1
  ∈ rows_of "search_results_user"
      (state_after (search_for_term "hello" "search_results_user")
                   sample_catalog).
Proof.
  split; [discriminate|].
  split; [exact hello_in_sample_catalog|].
  split; [reflexivity|].
  apply (name_match_row_carries_count sample_catalog "hello"
           "search_results_user" hello_record);
    [discriminate | exact hello_in_sample_catalog | reflexivity].
Defined.

Lemma scan_pass_all_or_nothing_witness :
  clean new_connection /\
  insert_file_info_walk rejects_blob sample_fs "/srv" new_connection
  = (Raise (MySQLError "Data error"),
     {| committed := new_store;
        session := {| files_info :=
                        [ report_record;
                          {| file_name := "notes"; full_path := "/srv/notes";
                             file_extension := ""; file_size := 0;
                             file_type := "Unknown"; content := "" |};
                          hello_record ];
                      search_tables := search_tables new_store |} |}) /\
  insert_file_info rejects_blob sample_fs "/srv" new_connection
  = (Ok tt, new_connection).
Proof.
  split; [reflexivity|].
  split; [vm_compute; reflexivity|].
  eapply (scan_pass_all_or_nothing rejects_blob sample_fs "/srv"
            new_connection); [reflexivity|].
  vm_compute. reflexivity.
Defined.

Lemma scan_idempotent_append_only_witness :
  clean new_connection /\
  (insert_file_info accepts_all sample_fs "/srv" ;;;
   insert_file_info accepts_all sample_fs "/srv") new_connection
  = insert_file_info accepts_all sample_fs "/srv" new_connection.
Proof.
  split; [reflexivity|].
  apply (scan_idempotent_append_only accepts_all sample_fs "/srv"
           new_connection).
  reflexivity.
Defined.

Lemma content_match_row_iff_count_positive_witness :
  "search_results_user" <> "files_info" /\
  rows_of "search_results_user"
    (state_after (search_for_term "there" "search_results_user")
                 sample_catalog)
  = omap (search_row "there") (files_info (session sample_catalog)).
Proof.
  split; [discriminate|].
  apply (content_match_row_iff_count_positive sample_catalog "there"
           "search_results_user").
  discriminate.
Defined.

Lemma get_file_content_total_witness :
  isdir sample_fs "/srv/docs" = true /\
  get_file_content sample_fs "/srv/docs" = Ok "" /\
  isdir sample_fs "/srv/docs/blob.bin" = false /\
  open_read sample_fs "/srv/docs/blob.bin" = Raise UnicodeDecodeError /\
  get_file_content sample_fs "/srv/docs/blob.bin" = Ok "Unreadable" /\
  isdir sample_fs "/srv/report.txt" = false /\
  open_read sample_fs "/srv/report.txt" = Ok "Hello hello world" /\
  get_file_content sample_fs "/srv/report.txt" = Ok "Hello hello world".
Proof.
  split; [reflexivity|].
  split; [apply (proj1 (get_file_content_total sample_fs "/srv/docs"));
          reflexivity|].
  split; [reflexivity|].
  split; [reflexivity|].
  split; [apply (proj1 (proj2 (proj2
            (get_file_content_total sample_fs "/srv/docs/blob.bin")))
            UnicodeDecodeError); reflexivity|].
  split; [reflexivity|].
  split; [reflexivity|].
  apply (proj1 (proj2 (get_file_content_total sample_fs "/srv/report.txt")));
    reflexivity.
Defined.

Lemma unreadable_text_is_searched_witness :
  "search_results_user" <> "files_info" /\
  blob_record ∈ files_info (session sample_catalog) /\
  isdir sample_fs (full_path blob_record) = false /\
  open_read sample_fs (full_path blob_record) = Raise UnicodeDecodeError /\
  get_file_content sample_fs (full_path blob_record)
  = Ok (content blob_record) /\
  Str.contains (Str.lower "read") (Str.lower (file_name blob_record)) = false /\
  Str.contains (Str.lower "read") (Str.lower "Unreadable") = true /\
  exists n : nat,
    (0 < n)%nat /\
    n = Str.count (Str.lower "Unreadable") (Str.lower "read") /\
    result_row blob_record n
    ∈ rows_of "search_results_user"
        (state_after (search_for_term "read" "search_results_user")
                     sample_catalog).
Proof.
  split; [discriminate|].
  split; [exact blob_in_sample_catalog|].
  do 5 (split; [reflexivity|]).
  apply (unreadable_text_is_searched sample_fs sample_catalog "read"
           "search_results_user" blob_record UnicodeDecodeError);
    try reflexivity; [discriminate | exact blob_in_sample_catalog].
Defined.

(** The searches of the specification's examples, run on the sample
    catalog. *)
Example search_hello_rows :
  rows_of "search_results_user"
    (state_after (search_for_term "hello" "search_results_user") sample_catalog)
  = [result_row report_record 2; result_row hello_record 1].
Proof. vm_compute. reflexivity. Qed.

Example search_report_rows :
  rows_of "search_results_user"
    (state_after (search_for_term "report" "search_results_user") sample_catalog)
  = [result_row report_record 0].
Proof. vm_compute. reflexivity. Qed.

Example search_read_rows :
  rows_of "search_results_user"
    (state_after (search_for_term "READ" "search_results_user") sample_catalog)
  = [result_row blob_record 1].
Proof. vm_compute. reflexivity. Qed.

Example search_foo_then_bar :
  rows_of "rs1"
    (state_after (search_for_term "bin" "rs1")
       (state_after (search_for_term "hello" "rs1") sample_catalog))
  = [result_row blob_record 0].
Proof. vm_compute. reflexivity. Qed.

(** A search whose table is [files_info] itself truncates the catalog:
    the statements above are about the search tables. *)
Example search_into_files_info :
  files_info (session (state_after (search_for_term "hello" "files_info")
                                   sample_catalog)) = [].
Proof. vm_compute. reflexivity. Qed.

(** * Further properties of the script *)

(** ** [file_exists] and the loop body *)

(** X2. Once the body of the loop has returned for a listed file,
    [file_exists] answers [True] for its path, and the body run again for
    that file returns without changing anything. *)
Theorem staged_file_is_known (server_rejects : FileRecord -> bool)
    (fs : filesystem) (root file : string) (c c' : connection) :
  insert_file_info_file server_rejects fs root file c = (Ok tt, c') ->
  file_exists (OsPath.join root file) c' = (Ok true, c') /\
  insert_file_info_file server_rejects fs root file c' = (Ok tt, c').
Proof.
  intros Hrun.
  apply insert_file_info_file_known, existsb_path in Hrun.
  split.
  - now rewrite file_exists_run, Hrun.
  - rewrite insert_file_info_file_run. cbn zeta. now rewrite Hrun.
Qed.

(** ** What can end a pass *)

(** An exception out of the walk that is not a [MySQLError] is the
    [OSError] of [os.path.getsize] on a listed file. *)
Lemma walk_raises_getsize (server_rejects : FileRecord -> bool)
    (fs : filesystem) (directory : string) (c c' : connection)
    (e : exception) :
  insert_file_info_walk server_rejects fs directory c = (Raise e, c') ->
  is_mysql_error e = false ->
  exists what root dirs files file,
    e = OSError what /\
    (root, dirs, files) ∈ os_walk fs directory /\ file ∈ files /\
    getsize fs (OsPath.join root file) = Raise (OSError what).
Proof.
  intros Hw He. unfold insert_file_info_walk in Hw.
  apply for_each_raises in Hw as ([[root dirs] files] & c0 & Hin & Hinner).
  apply for_each_raises in Hinner as (file & c2 & Hfile & Hbody).
  destruct (insert_file_info_file_cases server_rejects fs root file c2)
    as [[_ Heq] | [(_ & w & Hsize & Heq) | (_ & r & Hr & [[_ Heq] | [_ Heq]])]];
    rewrite Heq in Hbody; try discriminate.
  - injection Hbody as <- _. now exists w, root, dirs, files, file.
  - injection Hbody as <- _. discriminate He.
Qed.

(** [insert_file_info] raises what the walk raises and does not catch. *)
Lemma insert_file_info_raises (server_rejects : FileRecord -> bool)
    (fs : filesystem) (directory : string) (c c' : connection)
    (e : exception) :
  insert_file_info server_rejects fs directory c = (Raise e, c') ->
  insert_file_info_walk server_rejects fs directory c = (Raise e, c') /\
  is_mysql_error e = false.
Proof.
  intros Hrun.
  destruct (insert_file_info_walk server_rejects fs directory c)
    as [[[]|e1] c1] eqn:Hw.
  - now rewrite (insert_file_info_commits _ _ _ _ _ Hw) in Hrun.
  - destruct (is_mysql_error e1) eqn:He1.
    + destruct e1 as [| |w]; try discriminate.
      now rewrite (insert_file_info_rolls_back _ _ _ _ _ _ Hw) in Hrun.
    + rewrite (insert_file_info_propagates _ _ _ _ _ _ Hw He1) in Hrun.
      injection Hrun as <- <-. now split.
Qed.

(** X3. [insert_file_info] raises nothing but the [OSError] of
    [os.path.getsize] on a listed file.  The pass is then neither committed
    nor rolled back: the committed state is the one before the pass, and
    the rows inserted before the failure stay in the open transaction. *)
Theorem pass_aborted_by_getsize (server_rejects : FileRecord -> bool)
    (fs : filesystem) (directory : string) (c c' : connection)
    (e : exception) :
  insert_file_info server_rejects fs directory c = (Raise e, c') ->
  (exists what root dirs files file,
     e = OSError what /\
     (root, dirs, files) ∈ os_walk fs directory /\ file ∈ files /\
     getsize fs (OsPath.join root file) = Raise (OSError what)) /\
  committed c' = committed c /\
  exists added : list FileRecord,
    files_info (session c') = files_info (session c) ++ added /\
    Forall (staged_from_walk fs directory) added.
Proof.
  intros Hrun.
  apply insert_file_info_raises in Hrun as [Hw He].
  split; [now apply (walk_raises_getsize _ _ _ _ _ _ Hw)|].
  pose proof (walk_extends server_rejects fs directory c)
    as (Hc & _ & added & Hf & HP & _).
  rewrite Hw in Hc, Hf. cbn [snd] in Hc, Hf.
  split; [assumption|]. now exists added.
Qed.

(** X5. A pass keeps the paths of the catalog distinct: it never adds a
    second row for a path. *)
Theorem pass_keeps_paths_distinct (server_rejects : FileRecord -> bool)
    (fs : filesystem) (directory : string) (c : connection) :
  clean c ->
  NoDup (catalog_paths c) ->
  NoDup (catalog_paths
           (state_after (insert_file_info server_rejects fs directory) c)).
Proof.
  intros Hclean Hnd.
  destruct (insert_file_info_appends server_rejects fs directory c Hclean)
    as (added & Hf & _ & Hnew & Hnd').
  unfold catalog_paths in *. rewrite Hf, fmap_app.
  apply NoDup_app. repeat split; try assumption.
  intros p Hp Hp'. apply list_elem_of_fmap in Hp' as (r & -> & Hr).
  rewrite Forall_forall in Hnew. now apply (Hnew r Hr).
Qed.

(** ** The monitoring loop *)

Lemma bind_assoc {A B C : Type} (m : M A) (k : A -> M B) (h : B -> M C)
    (c : connection) :
  bind (bind m k) h c = bind m (fun a => bind (k a) h) c.
Proof. unfold bind. destruct (m c) as [[a|e] c1]; reflexivity. Qed.

Lemma bind_ret_unit (m : M unit) (c : connection) :
  bind m (fun _ => ret tt) c = m c.
Proof. unfold bind, ret. destruct (m c) as [[[]|e] c1]; reflexivity. Qed.

Lemma catalog_grows_refl (c : connection) : catalog_grows c c.
Proof. exists []. rewrite app_nil_r. repeat split; constructor. Qed.

Lemma catalog_grows_trans (c1 c2 c3 : connection) :
  catalog_grows c1 c2 -> catalog_grows c2 c3 -> catalog_grows c1 c3.
Proof.
  intros (a1 & Hf12 & Hnew1 & Hnd1) (a2 & Hf23 & Hnew2 & Hnd2).
  assert (Hfresh : forall r, r ∈ a2 ->
            (full_path r ∉ catalog_paths c1) /\ (full_path r ∉ full_path <$> a1)).
  { intros r Hr. rewrite Forall_forall in Hnew2. specialize (Hnew2 r Hr).
    unfold catalog_paths in Hnew2. rewrite Hf12, fmap_app, elem_of_app in Hnew2.
    tauto. }
  exists (a1 ++ a2). rewrite Hf23, Hf12, <- app_assoc.
  split; [reflexivity|]. split.
  - apply Forall_app_2; [assumption|].
    apply Forall_forall. intros r Hr. now apply Hfresh.
  - rewrite fmap_app. apply NoDup_app. repeat split; try assumption.
    intros p Hp1 Hp2. apply list_elem_of_fmap in Hp2 as (r & -> & Hr).
    now apply (Hfresh r Hr).
Qed.

Lemma insert_file_info_grows (server_rejects : FileRecord -> bool)
    (fs : filesystem) (directory : string) (c : connection) :
  clean c ->
  catalog_grows c (state_after (insert_file_info server_rejects fs directory) c).
Proof.
  intros Hclean.
  destruct (insert_file_info_appends server_rejects fs directory c Hclean)
    as (added & Hf & _ & Hnew & Hnd).
  now exists added.
Qed.

(** X6. However many passes the monitoring loop makes, over trees that may
    change from pass to pass, the rows the catalog had at the start stay
    as they are and in place; what is appended are rows for paths the
    catalog did not have, one row a path. *)
Theorem monitor_directory_only_appends (server_rejects : FileRecord -> bool)
    (directory : string) (snapshots : list filesystem) (c : connection) :
  clean c ->
  catalog_grows c
    (state_after (monitor_directory server_rejects directory snapshots) c).
Proof.
  unfold monitor_directory, state_after. revert c.
  induction snapshots as [|fs snapshots IH]; intros c Hclean.
  - apply catalog_grows_refl.
  - cbn [for_each]. unfold bind.
    pose proof (insert_file_info_grows server_rejects fs directory c Hclean)
      as Hgrow.
    unfold state_after in Hgrow.
    destruct (insert_file_info server_rejects fs directory c)
      as [[[]|e] c1] eqn:Hrun; cbn [snd] in *; [|assumption].
    eapply catalog_grows_trans; [exact Hgrow|].
    apply IH. now apply insert_file_info_leaves_clean in Hrun.
Qed.

(** X7. Over a tree that does not change, any number of passes of the
    monitoring loop leave what the first pass leaves. *)
Theorem monitor_directory_unchanged_tree (server_rejects : FileRecord -> bool)
    (fs : filesystem) (directory : string) (passes : nat) (c : connection) :
  clean c ->
  monitor_directory server_rejects directory (fs :: replicate passes fs) c
  = insert_file_info server_rejects fs directory c.
Proof.
  intros Hclean. unfold monitor_directory.
  induction passes as [|passes IH].
  - cbn [replicate for_each]. apply bind_ret_unit.
  - cbn [replicate for_each] in *.
    rewrite <- (bind_assoc (insert_file_info server_rejects fs directory)
                  (fun _ => insert_file_info server_rejects fs directory)).
    unfold bind at 1.
    rewrite (insert_file_info_twice server_rejects fs directory c Hclean).
    exact IH.
Qed.

(** ** More on the search pass *)

(** X8. A search that completes commits: it leaves no transaction open, and
    the rows of [files_info] the session had staged without committing (as
    a pass ended by an exception leaves them) are committed with it. *)
Theorem search_commits_staged_rows (search_term table_name : string)
    (c : connection) :
  table_name <> "files_info" ->
  let c' := state_after (search_for_term search_term table_name) c in
  clean c' /\ files_info (committed c') = files_info (session c).
Proof.
  intros Hname c'. subst c'. unfold state_after.
  rewrite search_for_term_run by assumption. now split.
Qed.

(** X9. A search writes to its own table only: the catalog and every other
    search table are after the search what the session had before. *)
Theorem search_leaves_other_tables (search_term table_name other : string)
    (c : connection) :
  table_name <> "files_info" ->
  other <> table_name ->
  let c' := state_after (search_for_term search_term table_name) c in
  files_info (session c') = files_info (session c) /\
  search_tables (session c') !! other = search_tables (session c) !! other.
Proof.
  intros Hname Hother c'. subst c'. unfold state_after.
  rewrite search_for_term_run by assumption. cbn.
  split; [reflexivity|]. now apply lookup_insert_ne.
Qed.

(** Every row of a search is the row of a record of the catalog. *)
Lemma search_row_inv (search_term : string) (r : FileRecord)
    (row : SearchResultRow) :
  search_row search_term r = Some row ->
  row = result_row r (Str.count (Str.lower (content r)) (Str.lower search_term))
  /\ holds_term search_term r = true.
Proof.
  unfold search_row, holds_term. intros H.
  destruct (Str.contains (Str.lower search_term) (Str.lower (file_name r)))
    eqn:Hn; cbn [orb] in *.
  - injection H as <-. now split.
  - destruct (0 <? _)%nat eqn:Hc; [|discriminate].
    injection H as <-. split; [reflexivity|].
    apply Nat.ltb_lt in Hc. now apply count_pos_iff.
Qed.

(** X10. A search invents nothing: every row of its table has the name, the
    path and the type of a record of the catalog that holds the term, in
    its file name or in its content, together with the count of the term
    in that content; and there are no more rows than records. *)
Theorem search_rows_come_from_catalog (search_term table_name : string)
    (c : connection) :
  table_name <> "files_info" ->
  let rows :=
    rows_of table_name
      (state_after (search_for_term search_term table_name) c) in
  (forall row, row ∈ rows ->
     exists r, r ∈ files_info (session c) /\
       holds_term search_term r = true /\
       row = result_row r
               (Str.count (Str.lower (content r)) (Str.lower search_term))) /\
  length rows <= length (files_info (session c)).
Proof.
  intros Hname rows. subst rows. rewrite rows_after_search by assumption.
  split.
  - intros row Hrow. apply list_elem_of_omap in Hrow as (r & Hr & Hrow).
    apply search_row_inv in Hrow as [-> Hholds]. now exists r.
  - generalize (files_info (session c)). intros l.
    induction l as [|r l IH]; [reflexivity|].
    cbn. destruct (search_row search_term r); cbn; lia.
Qed.

Lemma startswith_length (s sub : string) :
  Str.startswith s sub = true -> String.length sub <= String.length s.
Proof.
  revert s. induction sub as [|a sub IH]; intros s H; [cbn; lia|].
  destruct s as [|b s]; [discriminate|].
  cbn in H. apply andb_true_iff in H as [_ H]. apply IH in H. cbn. lia.
Qed.

(** The matches counted do not overlap: together they fit in the text. *)
Lemma count_scan_fits (sub s : string) (skip : nat) :
  Str.count_scan sub s skip * String.length sub <= String.length s - skip.
Proof.
  revert skip. induction s as [|a s IH]; intros skip; [cbn; lia|].
  cbn [Str.count_scan]. destruct skip as [|k].
  - destruct (Str.startswith (String a s) sub) eqn:Hsw.
    + apply startswith_length in Hsw. cbn [String.length] in *.
      specialize (IH (String.length sub - 1)).
      rewrite Nat.mul_succ_l. lia.
    + specialize (IH 0). cbn [String.length]. lia.
  - specialize (IH k). cbn [String.length]. lia.
Qed.

Lemma count_fits (s sub : string) :
  Str.count s sub * String.length sub <= String.length s.
Proof.
  destruct sub as [|a sub]; [cbn; lia|].
  unfold Str.count. pose proof (count_scan_fits (String a sub) s 0). lia.
Qed.

(** With [files_info] for its table, the search truncates the catalog and
    then finds nothing to go through. *)
Lemma search_for_term_files_info_run (search_term : string) (c : connection) :
  search_for_term search_term "files_info" c = (Ok tt, catalog_emptied c).
Proof. reflexivity. Qed.

(** ** What the search prints *)

Lemma count_pos_b (s sub : string) :
  (0 <? Str.count s sub)%nat = Str.contains sub s.
Proof.
  destruct (Str.contains sub s) eqn:Hc.
  - apply Nat.ltb_lt. now apply count_pos_iff.
  - apply Nat.ltb_ge.
    destruct (Nat.eq_dec (Str.count s sub) 0) as [->|Hne]; [lia|].
    assert (Hpos : (0 < Str.count s sub)%nat) by lia.
    apply count_pos_iff in Hpos. congruence.
Qed.

(** The rows of a search are the rows of the records that hold the term. *)
Lemma omap_search_row_filter (search_term : string) (files : list FileRecord) :
  omap (search_row search_term) files
  = (fun r => result_row r (Str.count (Str.lower (content r))
                                      (Str.lower search_term)))
    <$> filter (fun r => holds_term search_term r = true) files.
Proof.
  induction files as [|r files IH]; [reflexivity|].
  assert (Hrow : search_row search_term r
                 = if holds_term search_term r
                   then Some (result_row r
                                (Str.count (Str.lower (content r))
                                           (Str.lower search_term)))
                   else None).
  { unfold search_row, holds_term. now rewrite count_pos_b. }
  cbn [omap list_omap]. rewrite Hrow.
  destruct (holds_term search_term r) eqn:Hholds.
  - rewrite filter_cons_True by assumption. cbn. now rewrite <- IH.
  - rewrite filter_cons_False by congruence. exact IH.
Qed.

Lemma map_fmap {A B C : Type} (f : B -> C) (g : A -> B) (l : list A) :
  map f (g <$> l) = map (fun x => f (g x)) l.
Proof.
  induction l as [|x l IH]; [reflexivity|].
  rewrite fmap_cons. cbn [map]. now f_equal.
Qed.

Lemma print_results_rows (table_name : string) (rows : list SearchResultRow)
    (id : nat) :
  print_results table_name
    (with_ids id rows
       (fun row => [VStr (row_file_name row); VStr (row_full_path row);
                    VInt (occurrences row); VStr (row_file_type row)]))
  = match rows with
    | [] => [newline +:+ "No matches found for the search term."]
    | _ :: _ =>
        (newline +:+ "Search results in table " +:+ table_name +:+ ":")
        :: map result_line rows
    end.
Proof.
  destruct rows as [|row rows]; [reflexivity|].
  cbn [with_ids print_results]. f_equal.
  generalize (S id). revert row.
  induction rows as [|row' rows IH]; intros row k; [reflexivity|].
  cbn [with_ids map]. f_equal.
  specialize (IH row' (S k)). cbn [with_ids map] in IH.
  now injection IH.
Qed.

Lemma search_for_term_printing_run (search_term table_name : string)
    (c : connection) :
  table_name <> "files_info" ->
  search_for_term_printing search_term table_name c
  = (Ok (print_results table_name
           (with_ids 1 (omap (search_row search_term) (files_info (session c)))
              (fun row => [VStr (row_file_name row); VStr (row_full_path row);
                           VInt (occurrences row); VStr (row_file_type row)]))),
     state_after (search_for_term search_term table_name) c).
Proof.
  intros Hname. unfold state_after.
  rewrite search_for_term_run by assumption. cbn [snd].
  destruct (create_search_table_run table_name c Hname)
    as (s & Hcreate & Hfiles & Htable & Hins).
  unfold search_for_term_printing.
  rewrite (bind_ok _ _ _ _ _ Hcreate).
  apply try_except_mysql_ok.
  rewrite (bind_ok _ _ _ _ _
             (truncate_table_run table_name {| committed := s; session := s |}
                                 Hname Htable)).
  cbn zeta. cbn [session committed].
  unfold select_files at 1. unfold bind at 1.
  cbn [session committed files_info].
  erewrite bind_ok
    by (apply search_loop_run with (rows := []);
        [assumption | simpl; apply lookup_insert_eq]).
  unfold commit at 1. unfold bind at 1.
  cbn [session committed files_info search_tables].
  unfold bind, select_all, ret. cbn [session committed search_tables].
  apply String.eqb_neq in Hname. rewrite Hname, lookup_insert_eq.
  rewrite !insert_insert_eq, Hins, Hfiles. reflexivity.
Qed.

(** X13. What a search prints: the message that nothing was found exactly
    when no record of the catalog holds the term, in its file name or in
    its content and ignoring case; otherwise a heading with the name of the
    table and one line for each record that holds the term, in catalog
    order, with its name, path, count and type.  The state it leaves is the
    one [search_for_term] leaves. *)
Theorem search_prints_matching_records (search_term table_name : string)
    (c : connection) :
  table_name <> "files_info" ->
  let found :=
    filter (fun r => holds_term search_term r = true)
           (files_info (session c)) in
  search_for_term_printing search_term table_name c
  = (Ok match found with
        | [] => [newline +:+ "No matches found for the search term."]
        | _ :: _ =>
            (newline +:+ "Search results in table " +:+ table_name +:+ ":")
            :: map (fun r =>
                      result_line
                        (result_row r
                           (Str.count (Str.lower (content r))
                                      (Str.lower search_term))))
                   found
        end,
     state_after (search_for_term search_term table_name) c).
Proof.
  intros Hname found. subst found.
  rewrite search_for_term_printing_run by assumption.
  rewrite print_results_rows, omap_search_row_filter. f_equal.
  destruct (filter _ _) as [|r found]; [reflexivity|].
  f_equal. f_equal. apply map_fmap.
Qed.

(** X14. Called with [files_info] for its table, [search_for_term] empties
    the catalog and commits that, whatever the term: [TRUNCATE TABLE] is
    run on the name it is given.  It then reports that nothing was
    found. *)
Theorem search_into_catalog_table (search_term : string) (c : connection) :
  search_for_term search_term "files_info" c = (Ok tt, catalog_emptied c) /\
  search_for_term_printing search_term "files_info" c
  = (Ok [newline +:+ "No matches found for the search term."],
     catalog_emptied c).
Proof. split; reflexivity. Qed.

(** ** The labels of the classifier *)

Lemma upper_char_not_i (a : ascii) : Str.upper_char a <> "i"%char.
Proof. destruct a as [[] [] [] [] [] [] [] []]; discriminate. Qed.

Lemma upper_char_not_n (a : ascii) : Str.upper_char a <> "n"%char.
Proof. destruct a as [[] [] [] [] [] [] [] []]; discriminate. Qed.

Lemma upper_not_Directory (s : string) : Str.upper s <> "Directory".
Proof.
  destruct s as [|a [|b s]]; try discriminate.
  cbn. intros H. inversion H as [[Ha Hb Hs]].
  exact (upper_char_not_i b Hb).
Qed.

Lemma upper_not_Unknown (s : string) : Str.upper s <> "Unknown".
Proof.
  destruct s as [|a [|b s]]; try discriminate.
  cbn. intros H. inversion H as [[Ha Hb Hs]].
  exact (upper_char_not_n b Hb).
Qed.

(** X15. The two fixed labels of [get_file_type] cannot be taken for an
    extension, an extension being put in upper case: the answer is
    ["Directory"] exactly for a directory, and ["Unknown"] exactly for a
    path that is not a directory and has no extension. *)
Theorem get_file_type_labels (fs : filesystem) (p : string) :
  (get_file_type fs p = "Directory" <-> isdir fs p = true) /\
  (get_file_type fs p = "Unknown"
   <-> isdir fs p = false /\ snd (OsPath.splitext p) = "").
Proof.
  destruct (isdir fs p) eqn:Hdir.
  - rewrite (get_file_type_dir fs p Hdir).
    split; split; try tauto; try discriminate. intros [H _]. discriminate H.
  - destruct (get_file_type_file fs p Hdir) as [[He Ht] | (rest & He & Ht)];
      rewrite Ht, He.
    + split; split; try tauto; discriminate.
    + split; split; try discriminate.
      * intros H. now apply upper_not_Directory in H.
      * intros H. now apply upper_not_Unknown in H.
      * intros [_ H]. discriminate H.
Qed.

(** ** Creating the tables *)

(** X17. [setup_database] on a server that has tables already keeps every
    row: the catalog and the search tables are after it what the session
    had, committed; [search_results_user] exists; a second call changes
    nothing. *)
Theorem setup_database_keeps_rows (c : connection) :
  exists c',
    setup_database c = (Ok tt, c') /\
    clean c' /\
    files_info (session c') = files_info (session c) /\
    (forall other rows,
       search_tables (session c) !! other = Some rows ->
       search_tables (session c') !! other = Some rows) /\
    is_Some (search_tables (session c') !! "search_results_user") /\
    setup_database c' = (Ok tt, c').
Proof.
  unfold setup_database, create_table_if_not_exists, try_except_mysql, bind, ddl.
  cbn [session committed String.eqb Ascii.eqb].
  destruct (search_tables (session c) !! "search_results_user")
    as [old|] eqn:Hold.
  - eexists. split; [cbn; rewrite Hold; reflexivity|]. cbn. rewrite Hold.
    repeat split; eauto.
  - eexists. split; [cbn; rewrite Hold; reflexivity|]. cbn.
    rewrite lookup_insert_eq.
    repeat split.
    + intros other rows Hother. rewrite lookup_insert_ne; [assumption|].
      intros <-. congruence.
    + eauto.
Qed.

(** ** The menu *)

Lemma search_user_table_run (search_term : string) (c : connection) :
  exists c',
    search_for_term search_term "search_results_user" c = (Ok tt, c') /\
    files_info (session c') = files_info (session c) /\
    forall other, other <> "search_results_user" ->
      search_tables (session c') !! other = search_tables (session c) !! other.
Proof.
  eexists. split; [apply search_for_term_run; discriminate|].
  cbn. split; [reflexivity|].
  intros other Hother. now apply lookup_insert_ne.
Qed.

(** The loop returns, its searches leave the catalog and the other search
    tables alone. *)
Lemma user_interface_loop_ok (n : nat) :
  forall (inputs : list string) (c : connection),
    length inputs <= n ->
    exists st c',
      user_interface_loop inputs c = (Ok st, c') /\
      st <> DatabaseError /\
      files_info (session c') = files_info (session c) /\
      forall other, other <> "search_results_user" ->
        search_tables (session c') !! other = search_tables (session c) !! other.
Proof.
  induction n as [|n IH]; intros inputs c Hlen.
  - destruct inputs; [|cbn in Hlen; lia].
    exists AwaitingChoice, c. repeat split; discriminate.
  - destruct inputs as [|choice rest].
    { exists AwaitingChoice, c. repeat split; discriminate. }
    cbn [user_interface_loop]. cbn [length] in Hlen.
    destruct (String.eqb choice "1").
    + destruct rest as [|search_term rest'].
      { exists AwaitingTerm, c. repeat split; discriminate. }
      destruct (search_user_table_run search_term c) as (c1 & Hrun & Hf & Ht).
      rewrite (bind_ok _ _ _ _ _ Hrun).
      destruct (IH rest' c1 ltac:(cbn [length] in Hlen; lia))
        as (st & c' & Hloop & Hst & Hf' & Ht').
      exists st, c'. repeat split; try assumption; [congruence|].
      intros other Hother. rewrite Ht', Ht; auto.
    + destruct (String.eqb choice "2").
      * exists Exited, c. repeat split; discriminate.
      * apply IH. lia.
Qed.

(** What was typed up to a point where the loop waits for a choice can be
    run first, and the rest from the state it leaves. *)
Lemma user_interface_loop_app (n : nat) :
  forall (inputs more : list string) (c c1 : connection),
    length inputs <= n ->
    user_interface_loop inputs c = (Ok AwaitingChoice, c1) ->
    user_interface_loop (inputs ++ more) c = user_interface_loop more c1.
Proof.
  induction n as [|n IH]; intros inputs more c c1 Hlen Hrun.
  - destruct inputs; [|cbn in Hlen; lia].
    cbn in Hrun. unfold ret in Hrun. now injection Hrun as <-.
  - destruct inputs as [|choice rest].
    { cbn in Hrun. unfold ret in Hrun. now injection Hrun as <-. }
    cbn [user_interface_loop app] in *. cbn [length] in Hlen.
    destruct (String.eqb choice "1").
    + destruct rest as [|search_term rest']; [discriminate|].
      cbn [app].
      destruct (search_user_table_run search_term c) as (c2 & Hsearch & _).
      rewrite (bind_ok _ _ _ _ _ Hsearch) in Hrun.
      rewrite (bind_ok _ _ _ _ _ Hsearch).
      apply IH; [cbn [length] in Hlen; lia | assumption].
    + destruct (String.eqb choice "2"); [discriminate|].
      apply IH; [lia | assumption].
Qed.

(** X18. Whatever is typed at the menu, [user_interface] returns without a
    database error, and the catalog is after it what the session had
    before: the menu reads the catalog and writes to
    [search_results_user] only. *)
Theorem user_interface_keeps_catalog (inputs : list string) (c : connection) :
  exists st c',
    user_interface inputs c = (Ok st, c') /\
    st <> DatabaseError /\
    files_info (session c') = files_info (session c) /\
    forall other, other <> "search_results_user" ->
      search_tables (session c') !! other = search_tables (session c) !! other.
Proof.
  destruct (user_interface_loop_ok (length inputs) inputs c (le_n _))
    as (st & c' & Hrun & Hrest).
  exists st, c'. split; [|exact Hrest].
  unfold user_interface. now apply try_except_mysql_ok.
Qed.

(** X19. Whatever was searched before, choosing 1 with a term and then 2
    leaves the menu with [search_results_user] holding the rows of that
    term over the catalog, and nothing of the earlier searches; what is
    typed after the 2 is not read. *)
Theorem user_interface_last_search (inputs more : list string)
    (search_term : string) (c c1 : connection) :
  user_interface_loop inputs c = (Ok AwaitingChoice, c1) ->
  user_interface (inputs ++ "1" :: search_term :: "2" :: more) c
  = (Ok Exited,
     state_after (search_for_term search_term "search_results_user") c1) /\
  rows_of "search_results_user"
    (state_after (search_for_term search_term "search_results_user") c1)
  = omap (search_row search_term) (files_info (session c)).
Proof.
  intros Hrun. split.
  - unfold user_interface. apply try_except_mysql_ok.
    rewrite (user_interface_loop_app _ _ _ _ _ (le_n _) Hrun).
    cbn [user_interface_loop String.eqb Ascii.eqb Bool.eqb].
    destruct (search_user_table_run search_term c1) as (c2 & Hsearch & _).
    unfold state_after. rewrite (bind_ok _ _ _ _ _ Hsearch), Hsearch.
    reflexivity.
  - rewrite rows_after_search by discriminate.
    destruct (user_interface_loop_ok (length inputs) inputs c (le_n _))
      as (st & c' & Hrun' & _ & Hf & _).
    rewrite Hrun in Hrun'. injection Hrun' as _ <-. now rewrite Hf.
Qed.

(** ** The extension of a listed file and of its path *)

Lemma rfind_from_app (c : ascii) (a b : string) (i last : Z) :
  Str.rfind_from c (a +:+ b) i last
  = Str.rfind_from c b (i + Z.of_nat (String.length a))
      (Str.rfind_from c a i last).
Proof.
  revert i last. induction a as [|x a IH]; intros i last.
  - cbn. now rewrite Z.add_0_r.
  - simpl. rewrite IH. f_equal. lia.
Qed.

(** The index [rfind_from] answers is the index from 0, moved. *)
Lemma rfind_from_shift (c : ascii) (b : string) (i last : Z) :
  (Str.rfind_from c b i last = last /\ Str.rfind b c = (-1)%Z) \/
  ((0 <= Str.rfind b c)%Z /\
   Str.rfind_from c b i last = (i + Str.rfind b c)%Z).
Proof.
  unfold Str.rfind. revert i last.
  induction b as [|x b IH]; intros i last; [now left|].
  cbn [Str.rfind_from].
  destruct (IH (i + 1)%Z (if Ascii.eqb x c then i else last))
    as [[H1 H2] | [H1 H2]];
    destruct (IH (0 + 1)%Z (if Ascii.eqb x c then 0%Z else (-1)%Z))
      as [[H3 H4] | [H3 H4]];
    destruct (Ascii.eqb x c); lia.
Qed.

Lemma rfind_from_bound (c : ascii) (b : string) (i last : Z) :
  Str.rfind_from c b i last = last \/
  (Str.rfind_from c b i last < i + Z.of_nat (String.length b))%Z.
Proof.
  revert i last. induction b as [|x b IH]; intros i last; [now left|].
  cbn [Str.rfind_from String.length].
  destruct (IH (i + 1)%Z (if Ascii.eqb x c then i else last)) as [H | H].
  - rewrite H. destruct (Ascii.eqb x c); [right; lia | now left].
  - right. lia.
Qed.

Lemma rfind_lt_length (s : string) (c : ascii) :
  (Str.rfind s c < Z.of_nat (String.length s))%Z.
Proof.
  unfold Str.rfind. destruct (rfind_from_bound c s 0 (-1)) as [-> | H]; lia.
Qed.

(** [rfind] on a text put after another. *)
Lemma rfind_app (a b : string) (c : ascii) :
  Str.rfind (a +:+ b) c
  = if (Str.rfind b c <? 0)%Z then Str.rfind a c
    else (Z.of_nat (String.length a) + Str.rfind b c)%Z.
Proof.
  unfold Str.rfind at 1. rewrite rfind_from_app.
  destruct (rfind_from_shift c b (0 + Z.of_nat (String.length a))
              (Str.rfind_from c a 0 (-1))) as [[H1 H2] | [H1 H2]].
  - rewrite H1, H2. reflexivity.
  - rewrite H2. destruct (Z.ltb_spec (Str.rfind b c) 0); lia.
Qed.

Lemma slice_from_app (a b : string) (k : nat) :
  Str.slice_from (a +:+ b) (String.length a + k) = Str.slice_from b k.
Proof. induction a as [|x a IH]; [reflexivity | exact IH]. Qed.

Lemma skip_leading_dots_app (a b : string) (e : ascii) (k n : nat) :
  OsPath.skip_leading_dots (a +:+ b) e (String.length a + k) n
  = OsPath.skip_leading_dots b e k n.
Proof.
  revert k. induction n as [|n IH]; intros k; [reflexivity|].
  cbn [OsPath.skip_leading_dots]. unfold Str.char_at.
  rewrite slice_from_app.
  replace (S (String.length a + k)) with (String.length a + S k) by lia.
  now rewrite IH.
Qed.

Lemma endswith_char_split (s : string) (c : ascii) :
  Str.endswith_char s c = true -> exists q, s = q +:+ String c EmptyString.
Proof.
  induction s as [|x s IH]; [discriminate|].
  destruct s as [|y s].
  - cbn. intros H. apply Ascii.eqb_eq in H as ->. now exists EmptyString.
  - intros H. destruct (IH H) as [q Hq]. exists (String x q).
    rewrite Hq. reflexivity.
Qed.

Lemma append_assoc (a b c : string) : (a +:+ b) +:+ c = a +:+ (b +:+ c).
Proof.
  induction a as [|x a IH]; [reflexivity|]. exact (f_equal (String x) IH).
Qed.

(** The path of a name listed in a directory: the name itself, or the name
    after a separator. *)
Lemma join_listed (root file : string) :
  OsPath.join root file = file \/
  exists q, OsPath.join root file = q +:+ String OsPath.sep file.
Proof.
  unfold OsPath.join.
  destruct (Str.startswith file _); [now left|].
  destruct (String.eqb_spec root "") as [-> | Hroot]; [now left|].
  cbn [orb]. destruct (Str.endswith_char root OsPath.sep) eqn:Hend.
  - right. apply endswith_char_split in Hend as [q ->].
    exists q. now rewrite append_assoc.
  - right. now exists root.
Qed.

(** Below a separator, the extension of a path is the extension of its
    last component. *)
Lemma splitext_after_sep (q file : string) :
  Str.rfind file OsPath.sep = (-1)%Z ->
  snd (OsPath.splitext (q +:+ String OsPath.sep file))
  = snd (OsPath.splitext file).
Proof.
  intros Hnosep.
  unfold OsPath.splitext, OsPath.genericpath_splitext.
  set (tail := String OsPath.sep file).
  assert (Htail_sep : Str.rfind tail OsPath.sep = 0%Z).
  { unfold Str.rfind, tail. cbn [Str.rfind_from].
    change (Ascii.eqb OsPath.sep OsPath.sep) with true. cbn iota.
    destruct (rfind_from_shift OsPath.sep file (0 + 1) 0) as [[H _] | [H _]];
      [exact H | lia]. }
  assert (Htail_dot : Str.rfind tail OsPath.extsep
                      = if (Str.rfind file OsPath.extsep <? 0)%Z then (-1)%Z
                        else (1 + Str.rfind file OsPath.extsep)%Z).
  { unfold Str.rfind at 1. unfold tail. cbn [Str.rfind_from].
    change (Ascii.eqb OsPath.sep OsPath.extsep) with false. cbn iota.
    destruct (rfind_from_shift OsPath.extsep file (0 + 1) (-1))
      as [[H1 H2] | [H1 H2]].
    - rewrite H1, H2. reflexivity.
    - rewrite H2. destruct (Z.ltb_spec (Str.rfind file OsPath.extsep) 0); lia. }
  rewrite !rfind_app, Htail_sep, Htail_dot, Hnosep. cbn [Z.ltb Z.compare].
  pose proof (rfind_lt_length q OsPath.extsep) as Hq.
  destruct (Z.ltb_spec (Str.rfind file OsPath.extsep) 0) as [Hno | Hdot].
  - (* no dot in the name *)
    cbn [Z.ltb Z.compare].
    replace (Z.of_nat (String.length q) + 0 <? Str.rfind q OsPath.extsep)%Z
      with false by (symmetry; apply Z.ltb_ge; lia).
    replace (-1 <? Str.rfind file OsPath.extsep)%Z
      with false by (symmetry; apply Z.ltb_ge; lia).
    reflexivity.
  - set (d := Str.rfind file OsPath.extsep) in *.
    replace (1 + d <? 0)%Z with false by (symmetry; apply Z.ltb_ge; lia).
    replace (Z.of_nat (String.length q) + 0
             <? Z.of_nat (String.length q) + (1 + d))%Z
      with true by (symmetry; apply Z.ltb_lt; lia).
    replace (-1 <? d)%Z with true by (symmetry; apply Z.ltb_lt; lia).
    cbn [andb].
    replace (Z.to_nat (Z.of_nat (String.length q) + 0 + 1))
      with (String.length q + 1) by lia.
    replace (Z.to_nat (Z.of_nat (String.length q) + (1 + d)
                       - (Z.of_nat (String.length q) + 0 + 1)))
      with (Z.to_nat d) by lia.
    replace (Z.to_nat (-1 + 1)) with 0 by lia.
    replace (Z.to_nat (d - (-1 + 1))) with (Z.to_nat d) by lia.
    rewrite skip_leading_dots_app.
    change (OsPath.skip_leading_dots tail OsPath.extsep 1 (Z.to_nat d))
      with (OsPath.skip_leading_dots
              (String OsPath.sep EmptyString +:+ file) OsPath.extsep
              (String.length (String OsPath.sep EmptyString) + 0) (Z.to_nat d)).
    rewrite skip_leading_dots_app.
    destruct (OsPath.skip_leading_dots file OsPath.extsep 0 (Z.to_nat d));
      [|reflexivity].
    cbn [snd].
    replace (Z.to_nat (Z.of_nat (String.length q) + (1 + d)))
      with (String.length q + S (Z.to_nat d)) by lia.
    rewrite slice_from_app. reflexivity.
Qed.

Lemma basename_no_sep (file : string) :
  Str.rfind file OsPath.sep = (-1)%Z -> OsPath.basename file = file.
Proof. intros H. unfold OsPath.basename. now rewrite H. Qed.

Lemma splitext_join (root file : string) :
  Str.rfind file OsPath.sep = (-1)%Z ->
  snd (OsPath.splitext (OsPath.join root file)) = snd (OsPath.splitext file).
Proof.
  intros H. destruct (join_listed root file) as [-> | [q ->]];
    [reflexivity | now apply splitext_after_sep].
Qed.

(** The columns of the record of a listed name that holds no separator. *)
Lemma record_of_columns (fs : filesystem) (root file : string)
    (r : FileRecord) :
  record_of fs root file r ->
  Str.rfind file OsPath.sep = (-1)%Z ->
  full_path r = OsPath.join root (file_name r) /\
  file_extension r = snd (OsPath.splitext (full_path r)) /\
  (file_type r = "Directory" \/
   file_type r = if String.eqb (file_extension r) "" then "Unknown"
                 else Str.upper (Str.slice_from (file_extension r) 1)).
Proof.
  intros (Hpath & Hname & Hext & _ & Htype & _) Hsep.
  rewrite (basename_no_sep _ Hsep) in Hname.
  assert (Hext' : file_extension r = snd (OsPath.splitext (full_path r))).
  { now rewrite Hpath, splitext_join. }
  split; [now rewrite Hname|]. split; [assumption|].
  rewrite Htype. unfold get_file_type.
  destruct (isdir fs (full_path r)); [now left | right].
  rewrite <- Hext'. now destruct (String.eqb (file_extension r) "").
Qed.

(** X20. The columns of the rows a pass appends agree with each other when
    the listed names hold no separator, as the names of a directory
    listing do: the path of a row is the directory joined with its
    [file_name]; its [file_extension] is the extension of its path; and
    its [file_type] is ["Directory"], or ["Unknown"] when the extension is
    empty, or else the extension without its dot in upper case. *)
Theorem staged_rows_columns_agree (server_rejects : FileRecord -> bool)
    (fs : filesystem) (directory : string) (c : connection) :
  clean c ->
  (forall root dirs files file,
     (root, dirs, files) ∈ os_walk fs directory -> file ∈ files ->
     Str.rfind file OsPath.sep = (-1)%Z) ->
  exists added : list FileRecord,
    files_info (session (state_after
                           (insert_file_info server_rejects fs directory) c))
    = files_info (session c) ++ added /\
    Forall (fun r =>
              (exists root dirs files,
                 (root, dirs, files) ∈ os_walk fs directory /\
                 file_name r ∈ files /\
                 full_path r = OsPath.join root (file_name r)) /\
              file_extension r = snd (OsPath.splitext (full_path r)) /\
              (file_type r = "Directory" \/
               file_type r
               = if String.eqb (file_extension r) "" then "Unknown"
                 else Str.upper (Str.slice_from (file_extension r) 1)))
           added.
Proof.
  intros Hclean Hnames.
  destruct (insert_file_info_appends server_rejects fs directory c Hclean)
    as (added & Hf & Hstaged & _).
  exists added. split; [assumption|].
  rewrite Forall_forall in Hstaged |- *. intros r Hr.
  destruct (Hstaged r Hr) as (root & dirs & files & file & Hin & Hfile & Hrec).
  pose proof (Hnames root dirs files file Hin Hfile) as Hsep.
  destruct (record_of_columns fs root file r Hrec Hsep) as (Hpath & Hext & Htype).
  split; [|now split].
  exists root, dirs, files. split; [assumption|].
  destruct Hrec as (_ & Hname & _). rewrite (basename_no_sep _ Hsep) in Hname.
  split; [now rewrite Hname | assumption].
Qed.

(** ** The further statements at the sample data *)

Lemma sample_walk_files (root : string) (dirs files : list string)
    (file : string) :
  (root, dirs, files) ∈ os_walk sample_fs "/srv" -> file ∈ files ->
  (root, file) ∈ [ ("/srv", "report.txt"); ("/srv", "notes");
                   ("/srv/docs", "hello.TXT"); ("/srv/docs", "blob.bin") ].
Proof.
  change (os_walk sample_fs "/srv")
    with [ ("/srv", ["docs"], ["report.txt"; "notes"]);
           ("/srv/docs", ["old"], ["hello.TXT"; "blob.bin"]);
           ("/srv/docs/old", @nil string, @nil string) ].
  rewrite !elem_of_cons, elem_of_nil.
  intros [H | [H | [H | []]]]; injection H as -> -> ->;
    rewrite ?elem_of_cons, elem_of_nil; intros Hfile;
    repeat (destruct Hfile as [-> | Hfile]; [tauto|]); destruct Hfile.
Qed.

Lemma sample_names_no_sep (root : string) (dirs files : list string)
    (file : string) :
  (root, dirs, files) ∈ os_walk sample_fs "/srv" -> file ∈ files ->
  Str.rfind file OsPath.sep = (-1)%Z.
Proof.
  intros Hin Hfile. pose proof (sample_walk_files _ _ _ _ Hin Hfile) as H.
  rewrite !elem_of_cons, elem_of_nil in H.
  destruct H as [H | [H | [H | [H | []]]]]; injection H as -> ->; reflexivity.
Qed.

Lemma staged_file_is_known_witness :
  insert_file_info_file accepts_all sample_fs "/srv" "report.txt" new_connection
  = (Ok tt,
     state_after (insert_file_info_file accepts_all sample_fs "/srv" "report.txt")
                 new_connection) /\
  file_exists "/srv/report.txt"
    (state_after (insert_file_info_file accepts_all sample_fs "/srv" "report.txt")
                 new_connection)
  = (Ok true,
     state_after (insert_file_info_file accepts_all sample_fs "/srv" "report.txt")
                 new_connection).
Proof.
  split; [vm_compute; reflexivity|].
  apply (staged_file_is_known accepts_all sample_fs "/srv" "report.txt"
           new_connection).
  vm_compute. reflexivity.
Defined.

Lemma pass_aborted_by_getsize_witness :
  insert_file_info accepts_all dangling_fs "/srv" new_connection
  = (Raise (OSError "stat failed"), aborted_pass) /\
  committed aborted_pass = committed new_connection /\
  exists added : list FileRecord,
    files_info (session aborted_pass)
    = files_info (session new_connection) ++ added /\
    Forall (staged_from_walk dangling_fs "/srv") added.
Proof.
  split; [vm_compute; reflexivity|].
  apply (pass_aborted_by_getsize accepts_all dangling_fs "/srv" new_connection
           aborted_pass (OSError "stat failed")).
  vm_compute. reflexivity.
Defined.

Lemma pass_keeps_paths_distinct_witness :
  clean new_connection /\
  NoDup (catalog_paths new_connection) /\
  NoDup (catalog_paths sample_catalog).
Proof.
  split; [reflexivity|]. split; [constructor|].
  apply (pass_keeps_paths_distinct accepts_all sample_fs "/srv" new_connection);
    [reflexivity | constructor].
Defined.

Lemma monitor_directory_only_appends_witness :
  clean new_connection /\
  catalog_grows new_connection
    (state_after (monitor_directory accepts_all "/srv"
                    [sample_fs; dangling_fs; sample_fs]) new_connection).
Proof.
  split; [reflexivity|].
  apply (monitor_directory_only_appends accepts_all "/srv"
           [sample_fs; dangling_fs; sample_fs] new_connection).
  reflexivity.
Defined.

Lemma monitor_directory_unchanged_tree_witness :
  clean new_connection /\
  monitor_directory accepts_all "/srv" (sample_fs :: replicate 3 sample_fs)
    new_connection
  = insert_file_info accepts_all sample_fs "/srv" new_connection.
Proof.
  split; [reflexivity|].
  apply (monitor_directory_unchanged_tree accepts_all sample_fs "/srv" 3
           new_connection).
  reflexivity.
Defined.

Lemma search_commits_staged_rows_witness :
  "search_results_user" <> "files_info" /\
  files_info (committed aborted_pass) = [] /\
  clean (state_after (search_for_term "a" "search_results_user") aborted_pass) /\
  files_info (committed (state_after (search_for_term "a" "search_results_user")
                                     aborted_pass))
  = files_info (session aborted_pass).
Proof.
  split; [discriminate|]. split; [reflexivity|].
  apply (search_commits_staged_rows "a" "search_results_user" aborted_pass).
  discriminate.
Defined.

Lemma search_leaves_other_tables_witness :
  "rs1" <> "files_info" /\
  "search_results_user" <> "rs1" /\
  files_info (session (state_after (search_for_term "hello" "rs1")
                                   sample_catalog))
  = files_info (session sample_catalog) /\
  search_tables (session (state_after (search_for_term "hello" "rs1")
                                      sample_catalog))
  !! "search_results_user"
  = search_tables (session sample_catalog) !! "search_results_user".
Proof.
  split; [discriminate|]. split; [discriminate|].
  apply (search_leaves_other_tables "hello" "rs1" "search_results_user"
           sample_catalog); discriminate.
Defined.

Lemma search_rows_come_from_catalog_witness :
  "rs1" <> "files_info" /\
  length (rows_of "rs1" (state_after (search_for_term "hello" "rs1")
                                     sample_catalog))
  <= length (files_info (session sample_catalog)).
Proof.
  split; [discriminate|].
  apply (search_rows_come_from_catalog "hello" "rs1" sample_catalog).
  discriminate.
Defined.

Lemma report_row_in_hello_search :
  result_row report_record 2
  ∈ rows_of "rs1" (state_after (search_for_term "hello" "rs1") sample_catalog).
Proof.
  rewrite rows_after_search, sample_catalog_files by discriminate.
  change (omap _ _)
    with [result_row report_record 2; result_row hello_record 1].
  rewrite !elem_of_cons. tauto.
Qed.

Lemma search_prints_matching_records_witness :
  "search_results_user" <> "files_info" /\
  search_for_term_printing "zebra" "search_results_user" sample_catalog
  = (Ok [newline +:+ "No matches found for the search term."],
     state_after (search_for_term "zebra" "search_results_user") sample_catalog)
  /\
  fst (search_for_term_printing "there" "search_results_user" sample_catalog)
  = Ok [ newline +:+ "Search results in table search_results_user:";
         "File Name: hello.TXT, Full Path: /srv/docs/hello.TXT, Occurrences: 1, File Type: TXT" ].
Proof.
  split; [discriminate|]. split.
  - rewrite (search_prints_matching_records "zebra" "search_results_user"
               sample_catalog) by discriminate.
    rewrite sample_catalog_files. reflexivity.
  - rewrite (search_prints_matching_records "there" "search_results_user"
               sample_catalog) by discriminate.
    rewrite sample_catalog_files. reflexivity.
Defined.

Lemma user_interface_last_search_witness :
  user_interface_loop ["x"; "1"; "hello"] sample_catalog
  = (Ok AwaitingChoice,
     state_after (search_for_term "hello" "search_results_user") sample_catalog)
  /\
  rows_of "search_results_user"
    (state_after (user_interface ["x"; "1"; "hello"; "1"; "bin"; "2"; "1"; "y"])
                 sample_catalog)
  = [result_row blob_record 0].
Proof.
  split; [vm_compute; reflexivity|].
  destruct (user_interface_last_search ["x"; "1"; "hello"] ["1"; "y"] "bin"
              sample_catalog
              (state_after (search_for_term "hello" "search_results_user")
                           sample_catalog))
    as [Hrun Hrows]; [vm_compute; reflexivity|].
  unfold state_after at 1. cbn [app] in Hrun. rewrite Hrun. cbn [snd].
  rewrite Hrows, sample_catalog_files. reflexivity.
Defined.

Lemma staged_rows_columns_agree_witness :
  clean new_connection /\
  (forall root dirs files file,
     (root, dirs, files) ∈ os_walk sample_fs "/srv" -> file ∈ files ->
     Str.rfind file OsPath.sep = (-1)%Z) /\
  exists added : list FileRecord,
    files_info (session sample_catalog)
    = files_info (session new_connection) ++ added /\
    Forall (fun r =>
              (exists root dirs files,
                 (root, dirs, files) ∈ os_walk sample_fs "/srv" /\
                 file_name r ∈ files /\
                 full_path r = OsPath.join root (file_name r)) /\
              file_extension r = snd (OsPath.splitext (full_path r)) /\
              (file_type r = "Directory" \/
               file_type r
               = if String.eqb (file_extension r) "" then "Unknown"
                 else Str.upper (Str.slice_from (file_extension r) 1)))
           added.
Proof.
  split; [reflexivity|]. split; [exact sample_names_no_sep|].
  apply (staged_rows_columns_agree accepts_all sample_fs "/srv" new_connection);
    [reflexivity | exact sample_names_no_sep].
Defined.

(** * The classifier, the empty term and what a pass stages *)

(** ** One table, two searches *)

Lemma second_search_replaces_first_witness :
  "rs1" <> "files_info" /\
  rows_of "rs1" (state_after (search_for_term "hello" "rs1") sample_catalog)
  = [result_row report_record 2; result_row hello_record 1] /\
  rows_of "rs1"
    (state_after (search_for_term "bin" "rs1")
       (state_after (search_for_term "hello" "rs1") sample_catalog))
  = [result_row blob_record 0] /\
  state_after (search_for_term "bin" "rs1")
    (state_after (search_for_term "hello" "rs1") sample_catalog)
  = state_after (search_for_term "bin" "rs1") sample_catalog.
Proof.
  split; [discriminate|].
  split; [rewrite rows_after_search, sample_catalog_files by discriminate;
          reflexivity|].
  pose proof (second_search_replaces_first sample_catalog "hello" "bin" "rs1")
    as H.
  cbv zeta in H. destruct H as (Hfiles & Hrows & Hstate); [discriminate|].
  split; [|exact Hstate].
  rewrite Hrows, Hfiles, sample_catalog_files. reflexivity.
Defined.

(** ** The empty term *)



Lemma unicode_lower_char_of_ascii (a : ascii) :
  Unicode.lower_char (N_of_ascii a) = [N_of_ascii (Str.lower_char a)].
Proof. destruct a as [[] [] [] [] [] [] [] []]; reflexivity. Qed.

(** On the code points of an 8-bit string, [Unicode.lower] is
    [Str.lower]. *)
Lemma unicode_lower_of_string (s : string) :
  Unicode.lower (Unicode.of_string s) = Unicode.of_string (Str.lower s).
Proof.
  induction s as [|a s IH]; [reflexivity|].
  cbn [Unicode.of_string Str.lower]. unfold Unicode.lower in *.
  cbn [flat_map]. now rewrite unicode_lower_char_of_ascii, IH.
Qed.




(** ** Occurrences do not overlap *)

(** X11. The occurrences a search reports do not overlap: in every row,
    the count times the length of the term in lower case is at most the
    length of the content in lower case, the text the count is taken in;
    and the count is at most that length plus one. *)
Theorem occurrences_fit_in_content (search_term table_name : string)
    (c : connection) :
  table_name <> "files_info" ->
  forall row,
    row ∈ rows_of table_name
            (state_after (search_for_term search_term table_name) c) ->
    exists r, r ∈ files_info (session c) /\
      row_full_path row = full_path r /\
      occurrences row * String.length (Str.lower search_term)
      <= String.length (Str.lower (content r)) /\
      occurrences row <= String.length (Str.lower (content r)) + 1.
Proof.
  intros Hname row Hrow. rewrite rows_after_search in Hrow by assumption.
  apply list_elem_of_omap in Hrow as (r & Hr & Hrow).
  apply search_row_inv in Hrow as [-> _].
  exists r. split; [assumption|]. split; [reflexivity|]. cbn.
  pose proof (count_fits (Str.lower (content r)) (Str.lower search_term)) as H.
  split; [exact H|].
  destruct (Str.lower search_term) as [|a t]; [cbn; lia|].
  cbn [String.length] in H. nia.
Qed.

Lemma occurrences_fit_in_content_witness :
  "rs1" <> "files_info" /\
  result_row report_record 2
  ∈ rows_of "rs1" (state_after (search_for_term "hello" "rs1") sample_catalog) /\
  exists r, r ∈ files_info (session sample_catalog) /\
    row_full_path (result_row report_record 2) = full_path r /\
    occurrences (result_row report_record 2) * String.length (Str.lower "hello")
    <= String.length (Str.lower (content r)) /\
    occurrences (result_row report_record 2)
    <= String.length (Str.lower (content r)) + 1.
Proof.
  split; [discriminate|]. split; [exact report_row_in_hello_search|].
  apply (occurrences_fit_in_content "hello" "rs1" sample_catalog);
    [discriminate | exact report_row_in_hello_search].
Defined.

(** ** The classifier, with the upper case pinned *)





(** ** Path resolution in a well-formed tree *)

Lemma first_at_app (p : string) (l1 l2 : list (string * entry)) :
  first_at p (l1 ++ l2)
  = match first_at p l1 with
    | Some e => Some e
    | None => first_at p l2
    end.
Proof.
  induction l1 as [|[q e] l1 IH]; [reflexivity|].
  cbn. destruct (String.eqb q p); [reflexivity | exact IH].
Qed.

(** [find_entry] answers the first entry at the path. *)
Lemma find_entry_first_at (e : entry) :
  forall top p, find_entry top e p = first_at p (entry_paths top e).
Proof.
  induction e as [name size data | name l IH] using entry_nested_ind;
    intros top p; cbn [find_entry entry_paths first_at entry_name].
  - reflexivity.
  - destruct (String.eqb (OsPath.join top name) p); [reflexivity|].
    induction l as [|e l IHl]; [reflexivity|].
    apply Forall_cons in IH as [He Hl].
    cbn [flat_map]. rewrite first_at_app, <- He.
    destruct (find_entry (OsPath.join top name) e p); [reflexivity|].
    now apply IHl.
Qed.

Lemma find_in_listing_first_at (top : string) (l : list entry) (p : string) :
  find_in_listing top l p = first_at p (listing_paths top l).
Proof.
  induction l as [|e l IH]; [reflexivity|].
  cbn [find_in_listing]. unfold listing_paths. cbn [flat_map].
  rewrite first_at_app, <- find_entry_first_at.
  destruct (find_entry top e p); [reflexivity | exact IH].
Qed.

Lemma first_at_elem (p : string) (l : list (string * entry)) (e : entry) :
  first_at p l = Some e -> (p, e) ∈ l.
Proof.
  induction l as [|[q e'] l IH]; [discriminate|].
  cbn. destruct (String.eqb_spec q p) as [-> | Hne].
  - intros H. injection H as ->. left.
  - intros H. right. now apply IH.
Qed.

Lemma first_at_unique (p : string) (l : list (string * entry)) (e : entry) :
  NoDup (l.*1) -> (p, e) ∈ l -> first_at p l = Some e.
Proof.
  induction l as [|[q e'] l IH]; intros Hnd Hin.
  - now apply elem_of_nil in Hin.
  - rewrite fmap_cons in Hnd. apply NoDup_cons in Hnd as [Hq Hnd].
    cbn [first_at]. apply elem_of_cons in Hin as [Heq | Hin].
    + injection Heq as -> ->. now rewrite String.eqb_refl.
    + destruct (String.eqb_spec q p) as [-> | Hne]; [|now apply IH].
      exfalso. apply Hq. cbn. apply list_elem_of_fmap. now exists (p, e).
Qed.

Lemma elem_of_flat_map {A B : Type} (f : A -> list B) (l : list A) (y : B) :
  y ∈ flat_map f l <-> exists x, x ∈ l /\ y ∈ f x.
Proof.
  rewrite list_elem_of_In, in_flat_map. split; intros (x & Hx & Hy); exists x.
  - now rewrite !list_elem_of_In.
  - now rewrite <- !list_elem_of_In.
Qed.

(** The entries of a directory of the tree are in the tree, at the path of
    the directory joined with their names. *)
Lemma child_in_entry_paths (e0 : entry) :
  forall top p name l e,
    (p, Dir name l) ∈ entry_paths top e0 -> e ∈ l ->
    (OsPath.join p (entry_name e), e) ∈ entry_paths top e0.
Proof.
  induction e0 as [name0 size data | name0 l0 IH] using entry_nested_ind;
    intros top p name l e Hin He; cbn [entry_paths entry_name] in *.
  - apply list_elem_of_singleton in Hin. discriminate Hin.
  - apply elem_of_cons in Hin as [Heq | Hin].
    + injection Heq as -> -> ->. right.
      apply elem_of_flat_map. exists e. split; [assumption|].
      destruct e; left.
    + right. apply elem_of_flat_map in Hin as (e1 & He1 & Hin).
      apply elem_of_flat_map. exists e1. split; [assumption|].
      rewrite Forall_forall in IH. now apply (IH e1 He1) with name l.
Qed.

Lemma no_sep_startswith (name : string) :
  no_sep name = true ->
  Str.startswith name (String OsPath.sep EmptyString) = false.
Proof.
  destruct name as [|a name]; [reflexivity|].
  cbn [no_sep Str.startswith]. intros H.
  destruct (Ascii.eqb_spec OsPath.sep a) as [<- | Hne]; [|reflexivity].
  rewrite Ascii.eqb_refl in H. discriminate H.
Qed.

Lemma no_sep_endswith (name : string) :
  no_sep name = true -> Str.endswith_char name OsPath.sep = false.
Proof.
  induction name as [|a name IH]; [reflexivity|].
  cbn [no_sep]. intros H. apply andb_true_iff in H as [Ha H].
  apply negb_true_iff in Ha. cbn [Str.endswith_char].
  destruct name; [exact Ha | now apply IH].
Qed.

Lemma append_nil_r (s : string) : s +:+ "" = s.
Proof.
  induction s as [|a s IH]; [reflexivity|]. exact (f_equal (String a) IH).
Qed.

Lemma append_empty (a b : string) : a +:+ b = "" -> b = "".
Proof. destruct a; [tauto | discriminate]. Qed.

Lemma endswith_char_app (a name : string) (c : ascii) :
  name <> "" ->
  Str.endswith_char (a +:+ name) c = Str.endswith_char name c.
Proof.
  intros Hne. induction a as [|x a IH]; [reflexivity|].
  change (String x a +:+ name) with (String x (a +:+ name)).
  cbn [Str.endswith_char].
  destruct (a +:+ name) eqn:Happ; [|exact IH].
  apply append_empty in Happ. contradiction.
Qed.

(** The path [os.path.join] gives for a name of a listing. *)
Lemma join_dir_prefix (top name : string) :
  no_sep name = true -> OsPath.join top name = dir_prefix top +:+ name.
Proof.
  intros H. unfold OsPath.join, dir_prefix.
  rewrite (no_sep_startswith _ H).
  destruct (_ || _); [reflexivity|]. now rewrite append_assoc.
Qed.

(** Below the path of a named entry, names come after a separator. *)
Lemma dir_prefix_below (pre name : string) :
  wf_name name ->
  dir_prefix (pre +:+ name) = pre +:+ name +:+ String OsPath.sep EmptyString.
Proof.
  intros [Hne Hsep]. unfold dir_prefix.
  rewrite (endswith_char_app _ _ _ Hne), (no_sep_endswith _ Hsep).
  destruct (String.eqb_spec (pre +:+ name) "") as [Hempty | _].
  - apply append_empty in Hempty. contradiction.
  - cbn [orb]. now rewrite append_assoc.
Qed.

Lemma append_inv_head (a x y : string) : a +:+ x = a +:+ y -> x = y.
Proof.
  induction a as [|c a IH]; [tauto|].
  intros H. injection H as H. now apply IH.
Qed.

(** A name without separator ends where the first separator is. *)
Lemma name_rest_unique (n1 n2 r1 r2 : string) :
  no_sep n1 = true -> no_sep n2 = true ->
  (r1 = "" \/ exists r, r1 = String OsPath.sep r) ->
  (r2 = "" \/ exists r, r2 = String OsPath.sep r) ->
  n1 +:+ r1 = n2 +:+ r2 -> n1 = n2 /\ r1 = r2.
Proof.
  revert n2. induction n1 as [|a n1 IH]; intros [|b n2] H1 H2 Hr1 Hr2 Heq.
  - now split.
  - exfalso. cbn in Heq. cbn [no_sep] in H2.
    apply andb_true_iff in H2 as [Hb _]. apply negb_true_iff in Hb.
    destruct Hr1 as [-> | [r ->]]; [discriminate|].
    injection Heq as <- _. now rewrite Ascii.eqb_refl in Hb.
  - exfalso. cbn in Heq. cbn [no_sep] in H1.
    apply andb_true_iff in H1 as [Ha _]. apply negb_true_iff in Ha.
    destruct Hr2 as [-> | [r ->]]; [discriminate|].
    injection Heq as -> _. now rewrite Ascii.eqb_refl in Ha.
  - change (String a (n1 +:+ r1) = String b (n2 +:+ r2)) in Heq.
    injection Heq as -> Heq. cbn [no_sep] in H1, H2.
    apply andb_true_iff in H1 as [_ H1]. apply andb_true_iff in H2 as [_ H2].
    destruct (IH n2 H1 H2 Hr1 Hr2 Heq) as [-> ->]. now split.
Qed.

(** The shape of the paths below an entry. *)
Lemma entry_paths_shape (e : entry) :
  wf_entry e ->
  forall top p e',
    (p, e') ∈ entry_paths top e ->
    exists rest,
      p = dir_prefix top +:+ entry_name e +:+ rest /\
      (rest = "" \/ exists r, rest = String OsPath.sep r).
Proof.
  induction e as [name size data | name l IH] using entry_nested_ind;
    intros Hwf top p e' Hin; cbn [entry_paths entry_name] in Hin.
  - apply list_elem_of_singleton in Hin. injection Hin as -> _.
    inversion Hwf as [? ? ? [_ Hsep] |]; subst.
    exists "". rewrite (join_dir_prefix _ _ Hsep), append_nil_r.
    split; [reflexivity | now left].
  - inversion Hwf as [| ? ? Hname Hnd Hall]; subst. pose proof Hname as [_ Hsep].
    cbn [entry_name]. apply elem_of_cons in Hin as [Heq | Hin].
    + injection Heq as -> _. exists "".
      rewrite (join_dir_prefix _ _ Hsep), append_nil_r.
      split; [reflexivity | now left].
    + apply elem_of_flat_map in Hin as (e1 & He1 & Hin).
      rewrite Forall_forall in IH, Hall.
      destruct (IH e1 He1 (Hall e1 He1) _ _ _ Hin) as (rest & -> & _).
      rewrite (join_dir_prefix _ _ Hsep), (dir_prefix_below _ _ Hname).
      exists (String OsPath.sep (entry_name e1 +:+ rest)).
      split; [|right; now eexists].
      rewrite !append_assoc. reflexivity.
Qed.

Lemma elem_of_paths (p : string) (l : list (string * entry)) :
  p ∈ l.*1 <-> exists e, (p, e) ∈ l.
Proof.
  rewrite list_elem_of_fmap. split.
  - intros ([q e] & -> & H). now exists e.
  - intros (e & H). now exists (p, e).
Qed.

(** Entries with different names have different paths below them. *)
Lemma listing_paths_NoDup (top : string) (l : list entry) :
  NoDup (entry_name <$> l) -> Forall wf_entry l ->
  Forall (fun e => forall top', NoDup ((entry_paths top' e).*1)) l ->
  NoDup ((listing_paths top l).*1).
Proof.
  unfold listing_paths.
  induction l as [|e l IH]; intros Hnames Hwf Hnd; [constructor|].
  rewrite fmap_cons in Hnames. apply NoDup_cons in Hnames as [Hfresh Hnames].
  apply Forall_cons in Hwf as [Hwe Hwf]. apply Forall_cons in Hnd as [Hne Hnd].
  cbn [flat_map]. rewrite fmap_app. apply NoDup_app.
  split; [apply Hne|]. split; [|now apply IH].
  intros p Hp1 Hp2.
  apply elem_of_paths in Hp1 as (e1 & Hp1).
  apply elem_of_paths in Hp2 as (e2 & Hp2).
  apply elem_of_flat_map in Hp2 as (e' & He' & Hp2).
  rewrite Forall_forall in Hwf.
  destruct (entry_paths_shape e Hwe _ _ _ Hp1) as (r1 & -> & Hr1).
  destruct (entry_paths_shape e' (Hwf e' He') _ _ _ Hp2) as (r2 & Heq & Hr2).
  apply append_inv_head in Heq.
  assert (Hs1 : no_sep (entry_name e) = true)
    by (inversion Hwe as [? ? ? [_ H] | ? ? [_ H] _ _]; exact H).
  assert (Hs2 : no_sep (entry_name e') = true)
    by (pose proof (Hwf e' He') as Hw;
        inversion Hw as [? ? ? [_ H] | ? ? [_ H] _ _]; exact H).
  destruct (name_rest_unique _ _ _ _ Hs1 Hs2 Hr1 Hr2 Heq) as [Hname _].
  apply Hfresh. rewrite Hname. now apply list_elem_of_fmap_2.
Qed.

Lemma entry_paths_NoDup (e : entry) :
  wf_entry e -> forall top, NoDup ((entry_paths top e).*1).
Proof.
  induction e as [name size data | name l IH] using entry_nested_ind;
    intros Hwf top; cbn [entry_paths entry_name].
  - apply NoDup_singleton.
  - inversion Hwf as [| ? ? Hname Hnd Hall]; subst. pose proof Hname as [_ Hsep].
    rewrite fmap_cons. cbn [fst]. apply NoDup_cons. split.
    + intros Hin. apply elem_of_paths in Hin as (e' & Hin).
      apply elem_of_flat_map in Hin as (e1 & He1 & Hin).
      rewrite Forall_forall in Hall.
      destruct (entry_paths_shape e1 (Hall e1 He1) _ _ _ Hin) as (r & Heq & _).
      rewrite (join_dir_prefix _ _ Hsep), (dir_prefix_below _ _ Hname) in Heq.
      rewrite <- (append_nil_r (dir_prefix top +:+ name)) in Heq at 1.
      rewrite !append_assoc in Heq.
      apply append_inv_head, append_inv_head in Heq. discriminate Heq.
    + apply listing_paths_NoDup; try assumption.
      rewrite Forall_forall in IH, Hall |- *. intros e1 He1. auto.
Qed.

Lemma filesystem_paths_NoDup (fs : filesystem) :
  wf_filesystem fs -> NoDup ((listing_paths (mount fs) (tree fs)).*1).
Proof.
  intros [Hnd Hwf]. apply listing_paths_NoDup; try assumption.
  rewrite Forall_forall in Hwf |- *. intros e He.
  now apply entry_paths_NoDup, Hwf.
Qed.

(** No entry of the tree is at the path of the mount point. *)
Lemma listing_paths_not_mount (fs : filesystem) (p : string) (e : entry) :
  wf_filesystem fs ->
  (p, e) ∈ listing_paths (mount fs) (tree fs) -> p <> mount fs.
Proof.
  intros [_ Hwf] Hin Heq. unfold listing_paths in Hin.
  apply elem_of_flat_map in Hin as (e0 & He0 & Hin).
  rewrite Forall_forall in Hwf. pose proof (Hwf e0 He0) as Hw.
  destruct (entry_paths_shape e0 Hw _ _ _ Hin) as (r & Hp & _).
  assert (Hne : entry_name e0 <> "")
    by (inversion Hw as [? ? ? [H _] | ? ? [H _] _ _]; exact H).
  rewrite Heq in Hp. unfold dir_prefix in Hp.
  rewrite <- (append_nil_r (mount fs)) in Hp at 1.
  destruct (_ || _); [|rewrite append_assoc in Hp];
    apply append_inv_head in Hp; [|discriminate Hp].
  symmetry in Hp. destruct (entry_name e0); [contradiction | discriminate Hp].
Qed.

(** In a well-formed tree the entries of a directory are found at the path
    of the directory joined with their names. *)
Lemma stat_child (fs : filesystem) (p name : string) (l : list entry)
    (e : entry) :
  wf_filesystem fs ->
  stat fs p = Some (Dir name l) -> e ∈ l ->
  stat fs (OsPath.join p (entry_name e)) = Some e.
Proof.
  intros Hwf Hstat He.
  assert (Hin : (OsPath.join p (entry_name e), e)
                ∈ listing_paths (mount fs) (tree fs)).
  { unfold stat in Hstat. unfold listing_paths.
    destruct (String.eqb_spec p (mount fs)) as [-> | Hne].
    - injection Hstat as _ <-. apply elem_of_flat_map. exists e.
      split; [assumption|]. destruct e; left.
    - rewrite find_in_listing_first_at in Hstat.
      apply first_at_elem, elem_of_flat_map in Hstat as (e0 & He0 & Hin).
      apply elem_of_flat_map. exists e0. split; [assumption|].
      now apply child_in_entry_paths with name l. }
  unfold stat.
  destruct (String.eqb_spec (OsPath.join p (entry_name e)) (mount fs))
    as [Heq | _].
  - now apply listing_paths_not_mount in Hin.
  - rewrite find_in_listing_first_at.
    now apply first_at_unique; [apply filesystem_paths_NoDup|].
Qed.

(** The directories [os.walk] goes through are directories of the tree,
    listed as the tree has them. *)
Lemma walk_entry_roots (fs : filesystem) (e : entry) :
  wf_filesystem fs ->
  forall top, stat fs (OsPath.join top (entry_name e)) = Some e ->
  forall root dirs files, (root, dirs, files) ∈ walk_entry top e ->
    exists name l, stat fs root = Some (Dir name l) /\
                   dirs = dirnames l /\ files = filenames l.
Proof.
  intros Hwf.
  induction e as [name size data | name l IH] using entry_nested_ind;
    intros top Hstat root dirs files Hin; cbn [walk_entry entry_name] in *.
  - now apply elem_of_nil in Hin.
  - apply elem_of_cons in Hin as [Heq | Hin].
    + injection Heq as -> -> ->. now exists name, l.
    + apply elem_of_flat_map in Hin as (e1 & He1 & Hin).
      rewrite Forall_forall in IH.
      apply (IH e1 He1 (OsPath.join top name)); [|assumption].
      now apply stat_child with name l.
Qed.

Lemma os_walk_roots (fs : filesystem) (directory root : string)
    (dirs files : list string) :
  wf_filesystem fs ->
  (root, dirs, files) ∈ os_walk fs directory ->
  exists name l, stat fs root = Some (Dir name l) /\
                 dirs = dirnames l /\ files = filenames l.
Proof.
  intros Hwf. unfold os_walk.
  destruct (stat fs directory) as [[|name l]|] eqn:Hstat;
    try (intros H; now apply elem_of_nil in H).
  unfold walk_listing. intros Hin.
  apply elem_of_cons in Hin as [Heq | Hin].
  - injection Heq as -> -> ->. now exists name, l.
  - apply elem_of_flat_map in Hin as (e & He & Hin).
    apply (walk_entry_roots fs e Hwf directory); [|assumption].
    now apply stat_child with name l.
Qed.

(** A listed file is a file of the tree, at its path. *)
Lemma listed_file_stat (fs : filesystem) (directory root file : string)
    (dirs files : list string) :
  wf_filesystem fs ->
  (root, dirs, files) ∈ os_walk fs directory -> file ∈ files ->
  exists size data,
    stat fs (OsPath.join root file) = Some (File file size data).
Proof.
  intros Hwf Hin Hfile.
  destruct (os_walk_roots _ _ _ _ _ Hwf Hin) as (name & l & Hstat & _ & ->).
  apply filenames_spec in Hfile as (e & He & Hdir & <-).
  destruct e as [n size data|]; [|discriminate].
  exists size, data. now apply (stat_child fs root name l (File n size data)).
Qed.

Lemma get_file_type_not_directory (fs : filesystem) (p : string) :
  isdir fs p = false -> get_file_type fs p <> "Directory".
Proof.
  intros Hdir.
  destruct (get_file_type_file fs p Hdir) as [[_ ->] | (rest & _ & ->)];
    [discriminate | apply upper_not_Directory].
Qed.

(** ** What a pass stages *)

(** C2, amended. A scan pass stages records for the non-directory entries
    that [os.walk] lists, and for nothing else.  In a tree as directory
    listings give it, every record the pass appends to the catalog is
    built from a name in a [files] list and lies at the path of a file of
    the tree, not of a directory, and its type is not ["Directory"]; the
    directories the walk goes through are directories of the tree, with
    [dirs] the names of their sub-directories and [files] the names of
    their other entries; and when the walk runs to its end, the catalog
    has a record for the path of every listed file. *)
Theorem scan_stages_listed_files_only (server_rejects : FileRecord -> bool)
    (fs : filesystem) (directory : string) (c : connection) :
  wf_filesystem fs ->
  clean c ->
  let c' := state_after (insert_file_info server_rejects fs directory) c in
  (exists added : list FileRecord,
     files_info (session c') = files_info (session c) ++ added /\
     Forall (fun r =>
               staged_from_walk fs directory r /\
               (exists name size data,
                  stat fs (full_path r) = Some (File name size data)) /\
               isdir fs (full_path r) = false /\
               file_type r <> "Directory")
            added) /\
  (forall root dirs files,
     (root, dirs, files) ∈ os_walk fs directory ->
     exists name l, stat fs root = Some (Dir name l) /\
                    isdir fs root = true /\
                    dirs = dirnames l /\ files = filenames l) /\
  (forall c1,
     insert_file_info_walk server_rejects fs directory c = (Ok tt, c1) ->
     forall root dirs files file,
       (root, dirs, files) ∈ os_walk fs directory -> file ∈ files ->
       OsPath.join root file ∈ catalog_paths c').
Proof.
  intros Hwf Hclean c'. repeat split.
  - destruct (insert_file_info_appends server_rejects fs directory c Hclean)
      as (added & Hf & HP & _).
    exists added. split; [assumption|].
    rewrite Forall_forall in HP |- *. intros r Hr.
    pose proof (HP r Hr) as Hstaged.
    destruct Hstaged as (root & dirs & files & file & Hin & Hfile & Hrec).
    destruct (listed_file_stat _ _ _ _ _ _ Hwf Hin Hfile)
      as (size & data & Hstat).
    pose proof Hrec as (Hpath & _ & _ & _ & Htype & _).
    rewrite <- Hpath in Hstat.
    assert (Hdir : isdir fs (full_path r) = false)
      by (unfold isdir; now rewrite Hstat).
    split; [now exists root, dirs, files, file|].
    split; [now exists file, size, data|]. split; [assumption|].
    rewrite Htype. now apply get_file_type_not_directory.
  - intros root dirs files Hin.
    destruct (os_walk_roots _ _ _ _ _ Hwf Hin) as (name & l & Hstat & -> & ->).
    exists name, l. repeat split; [assumption|].
    unfold isdir. now rewrite Hstat.
  - intros c1 Hw root dirs files file Hin Hfile. subst c'.
    unfold state_after.
    rewrite (insert_file_info_commits _ _ _ _ _ Hw).
    apply (walk_ok_all_known _ _ _ _ _ Hw root dirs files file Hin Hfile).
Qed.

Lemma sample_fs_wf : wf_filesystem sample_fs.
Proof.
  split;
    repeat match goal with
           | |- Forall _ _ => constructor
           | |- wf_entry _ => constructor
           | |- wf_name _ => split; [discriminate | reflexivity]
           | |- NoDup _ => apply (bool_decide_unpack _); vm_compute; exact I
           end.
Qed.

Lemma scan_stages_listed_files_only_witness :
  wf_filesystem sample_fs /\
  clean new_connection /\
  (exists added : list FileRecord,
     files_info (session sample_catalog)
     = files_info (session new_connection) ++ added /\
     Forall (fun r =>
               staged_from_walk sample_fs "/srv" r /\
               (exists name size data,
                  stat sample_fs (full_path r) = Some (File name size data)) /\
               isdir sample_fs (full_path r) = false /\
               file_type r <> "Directory")
            added) /\
  (exists name l,
     stat sample_fs "/srv/docs" = Some (Dir name l) /\
     isdir sample_fs "/srv/docs" = true /\
     ["old"] = dirnames l /\ ["hello.TXT"; "blob.bin"] = filenames l) /\
  "/srv/docs/blob.bin" ∈ catalog_paths sample_catalog.
Proof.
  split; [exact sample_fs_wf|]. split; [reflexivity|].
  pose proof (scan_stages_listed_files_only accepts_all sample_fs "/srv"
                new_connection sample_fs_wf eq_refl) as H.
  cbv zeta in H. destruct H as (Hadded & Hroots & Hall).
  split; [exact Hadded|]. split.
  - apply (Hroots "/srv/docs" ["old"] ["hello.TXT"; "blob.bin"]).
    vm_compute. right. left.
  - assert (Hw : insert_file_info_walk accepts_all sample_fs "/srv" new_connection
                 = (Ok tt, state_after (insert_file_info_walk accepts_all
                                          sample_fs "/srv") new_connection))
      by (vm_compute; reflexivity).
    apply (Hall _ Hw "/srv/docs" ["old"] ["hello.TXT"; "blob.bin"] "blob.bin").
    + vm_compute. right. left.
    + right. left.
Defined.
